(** * Champion scraper: the crawl loop, the qualification pipeline and the
      CSV ledger of [main.py], embedded in Rocq.

    A text is the [string] of its UTF-8 bytes, so that [in] is the search
    for a run of bytes.  A naive [datetime] is an integer count of
    microseconds on the line on which Python orders naive datetimes;
    [datetime.now()] is a reading of the local clock and [strptime] of an
    event's [created_at] is the UTC instant the event reports, both on that
    line.  The network and the clock are an environment that answers every
    request from the history of what the process did so far. *)

From Stdlib Require Import ZArith Ascii String List Bool Lia.
From stdpp Require Import base decidable option list gmap strings pretty.

Local Open Scope string_scope.
Local Open Scope Z_scope.

(** Let [simpl] compute a concatenation whose left operand is known. *)
#[local] Arguments String.append !_ _ / : simpl nomatch.

(** ** Python strings *)

Module PyStr.

Definition is_ascii_upper (c : ascii) : bool :=
  ((65 <=? N_of_ascii c) && (N_of_ascii c <=? 90))%N.

Definition is_ascii_lower (c : ascii) : bool :=
  ((97 <=? N_of_ascii c) && (N_of_ascii c <=? 122))%N.

Definition lower_char (c : ascii) : ascii :=
  if is_ascii_upper c then ascii_of_N (N_of_ascii c + 32) else c.

Definition upper_char (c : ascii) : ascii :=
  if is_ascii_lower c then ascii_of_N (N_of_ascii c - 32) else c.

(** The bytes [a b c] are U+212A KELVIN SIGN. *)
Definition is_kelvin_sign (a b c : ascii) : bool :=
  Ascii.eqb a "226" && Ascii.eqb b "132" && Ascii.eqb c "170".

(** The bytes [a b] are U+0130 LATIN CAPITAL LETTER I WITH DOT ABOVE. *)
Definition is_dotted_capital_i (a b : ascii) : bool :=
  Ascii.eqb a "196" && Ascii.eqb b "176".

(** U+0307 COMBINING DOT ABOVE *)
Definition combining_dot_above : string :=
  String "204" (String "135" EmptyString).

(** [s.lower()], as far as ASCII goes.  The capitals A to Z become a to z;
    the KELVIN SIGN becomes [k] and the capital I WITH DOT ABOVE becomes
    [i] and a combining dot, as in Python: these two are the only
    characters beyond ASCII whose lower-case form holds an ASCII
    character.  Every other character beyond ASCII is kept as it is: its
    lower-case form has no ASCII in it either, and [main.py] does nothing
    with a lower-cased text but search it for keywords, which are ASCII. *)
Fixpoint lower (s : string) : string :=
  match s with
  | EmptyString => EmptyString
  | String a s1 =>
      match s1 with
      | EmptyString => String (lower_char a) EmptyString
      | String b s2 =>
          if is_dotted_capital_i a b
          then String "i" (combining_dot_above +:+ lower s2)
          else
            match s2 with
            | EmptyString => String (lower_char a) (lower s1)
            | String c s3 =>
                if is_kelvin_sign a b c then String "k" (lower s3)
                else String (lower_char a) (lower s1)
            end
      end
  end.

(** [s.capitalize()] of a keyword (the keywords are ASCII): first character
    upper-cased, the rest lower-cased. *)
Definition capitalize (s : string) : string :=
  match s with
  | EmptyString => EmptyString
  | String c s' => String (upper_char c) (lower s')
  end.

(** [s.startswith(p)] *)
Fixpoint startswith (p s : string) : bool :=
  match p, s with
  | EmptyString, _ => true
  | String _ _, EmptyString => false
  | String a p', String b s' => Ascii.eqb a b && startswith p' s'
  end.

(** [needle in hay] *)
Fixpoint contains (needle hay : string) : bool :=
  startswith needle hay ||
  match hay with
  | EmptyString => false
  | String _ hay' => contains needle hay'
  end.

(** Truthiness of an optional string: [None] and [''] are falsy. *)
Definition truthy (o : option string) : bool :=
  match o with
  | None => false
  | Some EmptyString => false
  | Some (String _ _) => true
  end.

(** What the claims mean by a substring. *)
Definition substring_of (needle hay : string) : Prop :=
  exists pre post, hay = pre +:+ needle +:+ post.

(** Two texts that differ in letter case only: they lower-case alike. *)
Definition same_modulo_case (s t : string) : Prop := lower s = lower t.

End PyStr.

(** ** The filter lists (module-level constants of [main.py]) *)

Definition EXCLUDED_COMPANIES : list string :=
  ["google"; "amazon"; "microsoft"; "facebook"; "cognizant"; "accenture";
   "tcs"; "deloitte"; "kpmg"; "cloudflare"; "linkedin"; "uber"].

Definition EXCLUDED_INDUSTRIES : list string := ["fintech"; "healthtech"].

Definition SENIORITY_KEYWORDS : list string :=
  ["staff engineer"; "principal engineer"; "senior manager"; "director";
   "senior director"; "engineer"].

Definition STARTUP_KEYWORDS : list string :=
  ["advisor"; "vc"; "angel investor"; "startup"].

(** ** Qualification pipeline: the pure stages *)

(** The first loop of [extract_senior_title]: return at the first keyword
    found in the lower-cased bio. *)
Fixpoint first_keyword (keywords : list string) (bio : string) : option string :=
  match keywords with
  | [] => None
  | keyword :: rest =>
      if PyStr.contains keyword bio then Some keyword
      else first_keyword rest bio
  end.

Definition extract_senior_title (bio : option string) : option string :=
  let bio := if PyStr.truthy bio then PyStr.lower (default "" bio) else "" in
  match first_keyword SENIORITY_KEYWORDS bio with
  | Some keyword => Some (PyStr.capitalize keyword)
  | None =>
      match first_keyword STARTUP_KEYWORDS bio with
      | Some _ => Some "Startup/VC involvement"
      | None => None
      end
  end.

(** [any(excluded in text for excluded in blocklist)] *)
Definition any_in (blocklist : list string) (text : string) : bool :=
  existsb (fun excluded => PyStr.contains excluded text) blocklist.

Definition is_excluded_company (company_name : option string) : bool :=
  if negb (PyStr.truthy company_name) then false
  else any_in EXCLUDED_COMPANIES (PyStr.lower (default "" company_name)).

Definition is_excluded_industry (bio : option string) : bool :=
  if negb (PyStr.truthy bio) then false
  else any_in EXCLUDED_INDUSTRIES (PyStr.lower (default "" bio)).

(** ** Data exchanged with the API *)

(** A naive [datetime], in microseconds. *)
Definition datetime := Z.

Definition microseconds_per_second : Z := 1000000.

(** [timedelta(days=30)] *)
Definition thirty_days : Z := 30 * 86400 * microseconds_per_second.

Record response (A : Type) : Type := mkResponse
  { status_code : Z;
    json : A }.
Arguments mkResponse {A} _ _.
Arguments status_code {A} _.
Arguments json {A} _.

(** [data['resources']['search']] of the rate-limit endpoint. *)
Record rate_limit_data : Type := mkRateLimit
  { remaining : Z;
    reset : Z }.

(** One entry of [data['items']] of the search endpoint. *)
Record search_item : Type := mkItem
  { item_login : string }.

(** The fields of a user document that the scraper reads; [None] is a
    field that is [null] or absent.  A user document is never the empty
    dictionary, so that [if profile_data:] only tells a document from the
    [None] of a failed lookup. *)
Record profile_data : Type := mkProfileData
  { pd_login : option string;
    pd_company : option string;
    pd_bio : option string;
    pd_location : option string;
    pd_followers : option Z;
    pd_public_repos : option Z;
    pd_html_url : option string }.

(** One entry of the events feed; [created_at] is the datetime that
    [strptime(event['created_at'], '%Y-%m-%dT%H:%M:%SZ')] yields. *)
Record gh_event : Type := mkEvent
  { event_type : string;
    created_at : datetime }.

(** The dictionary [profile_info] handed to [append_to_csv]. *)
Record profile_info : Type := mkProfileInfo
  { name : string;
    location : option string;
    followers : option Z;
    repos : option Z;
    url : option string;
    recent_commits : Z;
    role : string }.

(** ** What the process does to the outside world *)

Inductive request : Type :=
| GetRateLimit
| GetSearchUsers (page : Z)
| GetUser (username : string)
| GetUserEvents (username : string).

(** One constructor per [print] call of [main.py], in source order. *)
Inductive log_line : Type :=
| LogCsvNotFound
| LogRateLimitFailed
| LogScrapingPage (page : Z)
| LogRateLimitReached (seconds : Z)
| LogForbidden
| LogPageReturned (page : Z) (users_count : Z)
| LogNoMoreUsers (page : Z)
| LogAlreadyExists (username : string)
| LogSkippedCompany (username : string) (company_name : option string)
| LogSkippedIndustry (username : string)
| LogAdded (username : string)
| LogLowActivity (username : string)
| LogNoSeniorTitle (username : string)
| LogFetchDataFailed (login : string)
| LogError (status : Z)
| LogFetchProfileFailed (username : string) (status : Z)
| LogSaved (name : string).

Inductive action : Type :=
| Http (r : request)
| Now
| Sleep (microseconds : Z)
| Print (l : log_line)
| CsvAppend (p : profile_info).

Inductive exn : Type :=
| TypeError    (* unpacking [None] *)
| ValueError   (* [time.sleep] of a negative length *)
| KeyError     (* [row['name']] of a row without that key *)
| CsvError.    (* [csv.Error] of the reader *)

(** The API and the clock: every answer may depend on all that the process
    did before (so that a page can answer 403 and then 200). *)
Record environment : Type := mkEnv
  { rate_limit_api : list action -> response rate_limit_data;
    search_api : list action -> Z -> response (list search_item);
    users_api : list action -> string -> response profile_data;
    events_api : list action -> string -> response (list gh_event);
    clock : list action -> datetime;
    fromtimestamp : Z -> datetime }.

(** The state the process reads and writes: the set object bound to
    [existing_users] (one object, shared by the main loop and every call of
    [scrape_github]), the content of [champions.csv] ([None]: no such
    file), and the actions performed so far, oldest first. *)
Record world : Type := mkWorld
  { existing_users : gset string;
    champions_csv : option string;
    history : list action }.

Inductive outcome (A : Type) : Type :=
| Return (a : A)
| Raise (e : exn)
| OutOfFuel.
Arguments Return {A} _.
Arguments Raise {A} _.
Arguments OutOfFuel {A}.

Definition M (A : Type) : Type := world -> outcome A * world.

Definition ret {A} (a : A) : M A := fun w => (Return a, w).

Definition bind {A B} (m : M A) (k : A -> M B) : M B :=
  fun w =>
    match m w with
    | (Return a, w') => k a w'
    | (Raise e, w') => (Raise e, w')
    | (OutOfFuel, w') => (OutOfFuel, w')
    end.

Definition raise {A} (e : exn) : M A := fun w => (Raise e, w).

Definition out_of_fuel {A} : M A := fun w => (OutOfFuel, w).

Notation "'do' x <- m ; k" := (bind m (fun x => k))
  (at level 10, x name, m at level 100, k at level 200,
   format "'[v' 'do'  x  <-  m ; '/' k ']'").

Definition perform (a : action) : M unit :=
  fun w => (Return tt,
            {| existing_users := existing_users w;
               champions_csv := champions_csv w;
               history := history w ++ [a] |}).

Definition print (l : log_line) : M unit := perform (Print l).

(** [for x in xs: body(x)] *)
Fixpoint for_each {A} (xs : list A) (body : A -> M unit) : M unit :=
  match xs with
  | [] => ret tt
  | x :: xs' => do _ <- body x; for_each xs' body
  end.

(** ** The [csv] writer (default dialect: [','], double quote, minimal
       quoting, ['\r\n']) *)

Module Csv.

Definition delimiter : ascii := ","%char.
Definition quotechar : ascii := "034"%char.
Definition CR : ascii := "013"%char.
Definition LF : ascii := "010"%char.
Definition lineterminator : string := String CR (String LF EmptyString).

(** A character that forces its field into quotes. *)
Definition special (c : ascii) : bool :=
  Ascii.eqb c delimiter || Ascii.eqb c quotechar ||
  Ascii.eqb c CR || Ascii.eqb c LF.

Fixpoint has_special (s : string) : bool :=
  match s with
  | EmptyString => false
  | String c s' => special c || has_special s'
  end.

Fixpoint double_quotes (s : string) : string :=
  match s with
  | EmptyString => EmptyString
  | String c s' =>
      if Ascii.eqb c quotechar
      then String quotechar (String quotechar (double_quotes s'))
      else String c (double_quotes s')
  end.

Definition quoted (s : string) : string :=
  String quotechar (double_quotes s +:+ String quotechar EmptyString).

Definition write_field (s : string) : string :=
  if has_special s then quoted s else s.

Fixpoint join (fields : list string) : string :=
  match fields with
  | [] => EmptyString
  | [f] => f
  | f :: fields' => f +:+ String delimiter (join fields')
  end.

(** [csv.writer.writerow]: a record that would be empty text although it
    has a field is written as one quoted empty field. *)
Definition writerow (fields : list string) : string :=
  let record := join (map write_field fields) in
  match fields, record with
  | _ :: _, EmptyString => quoted EmptyString +:+ lineterminator
  | _, _ => record +:+ lineterminator
  end.

(** A cell of a row dictionary. *)
Inductive value : Type :=
| VNone
| VStr (s : string)
| VInt (z : Z).

(** [None] is written as the empty text, a text as it is, anything else
    through [str]. *)
Definition text_of (v : value) : string :=
  match v with
  | VNone => EmptyString
  | VStr s => s
  | VInt z => pretty z
  end.

Definition of_str (o : option string) : value :=
  match o with Some s => VStr s | None => VNone end.

Definition of_int (o : option Z) : value :=
  match o with Some z => VInt z | None => VNone end.

End Csv.

Definition fieldnames : list string :=
  ["name"; "location"; "followers"; "repos"; "url"; "recent_commits"; "role"].

(** [DictWriter.writeheader] *)
Definition header_row : string := Csv.writerow fieldnames.

(** The cells of [profile], in [fieldnames] order. *)
Definition row_values (profile : profile_info) : list Csv.value :=
  [Csv.VStr (name profile); Csv.of_str (location profile);
   Csv.of_int (followers profile); Csv.of_int (repos profile);
   Csv.of_str (url profile); Csv.VInt (recent_commits profile);
   Csv.VStr (role profile)].

(** [DictWriter.writerow(profile)] *)
Definition data_row (profile : profile_info) : string :=
  Csv.writerow (map Csv.text_of (row_values profile)).

(** ** Reading the file back: text mode and [csv.reader]

    [open(csv_file, mode='r')] reads with universal newlines and is iterated
    line by line; [csv.reader] runs the state machine of the default dialect
    over the characters of each line and an end-of-line mark.  Fields are
    taken to stay below [csv.field_size_limit()]. *)

Module CsvRead.

Import Csv.

(** Universal newlines: ['\r\n'] and a lone ['\r'] are read as ['\n'];
    [pendingcr] says that the character before was a ['\r'], for which the
    ['\n'] is already out. *)
Fixpoint translate_newlines (pendingcr : bool) (s : string) : string :=
  match s with
  | EmptyString => EmptyString
  | String c s' =>
      if Ascii.eqb c CR then String LF (translate_newlines true s')
      else if Ascii.eqb c LF then
        if pendingcr then translate_newlines false s'
        else String LF (translate_newlines false s')
      else String c (translate_newlines false s')
  end.

Definition universal_newlines (s : string) : string :=
  translate_newlines false s.

(** Iterating a text file: its lines, each with its ['\n'] (the last one
    may lack it). *)
Definition cons_char (c : ascii) (lines : list string) : list string :=
  if Ascii.eqb c LF then String LF EmptyString :: lines
  else
    match lines with
    | [] => [String c EmptyString]
    | line :: lines' => String c line :: lines'
    end.

Fixpoint readlines (s : string) : list string :=
  match s with
  | EmptyString => []
  | String c s' => cons_char c (readlines s')
  end.

Inductive parser_state : Type :=
| START_RECORD
| START_FIELD
| IN_FIELD
| IN_QUOTED_FIELD
| QUOTE_IN_QUOTED_FIELD
| EAT_CRNL.

Definition parser_state_eqb (a b : parser_state) : bool :=
  match a, b with
  | START_RECORD, START_RECORD | START_FIELD, START_FIELD
  | IN_FIELD, IN_FIELD | IN_QUOTED_FIELD, IN_QUOTED_FIELD
  | QUOTE_IN_QUOTED_FIELD, QUOTE_IN_QUOTED_FIELD | EAT_CRNL, EAT_CRNL => true
  | _, _ => false
  end.

Record parser : Type := mkParser
  { state : parser_state;
    fields : list string;
    field : string }.

Definition parse_reset : parser :=
  {| state := START_RECORD; fields := []; field := EmptyString |}.

Definition set_state (p : parser) (s : parser_state) : parser :=
  {| state := s; fields := fields p; field := field p |}.

Definition parse_save_field (p : parser) : parser :=
  {| state := state p; fields := fields p ++ [field p]; field := EmptyString |}.

Definition parse_add_char (p : parser) (c : ascii) : parser :=
  {| state := state p; fields := fields p;
     field := field p +:+ String c EmptyString |}.

Definition is_newline (c : ascii) : bool := Ascii.eqb c LF || Ascii.eqb c CR.

(** The [START_FIELD] case, into which [START_RECORD] falls through. *)
Definition start_field (p : parser) (c : option ascii) : parser :=
  match c with
  | None => set_state (parse_save_field p) START_RECORD
  | Some ch =>
      if is_newline ch then set_state (parse_save_field p) EAT_CRNL
      else if Ascii.eqb ch quotechar then set_state p IN_QUOTED_FIELD
      else if Ascii.eqb ch delimiter then parse_save_field p
      else set_state (parse_add_char p ch) IN_FIELD
  end.

(** [parse_process_char]: [c = None] is the end-of-line mark; the result
    [None] is [csv.Error]. *)
Definition parse_process_char (p : parser) (c : option ascii) : option parser :=
  match state p with
  | START_RECORD =>
      match c with
      | None => Some p
      | Some ch =>
          if is_newline ch then Some (set_state p EAT_CRNL)
          else Some (start_field (set_state p START_FIELD) c)
      end
  | START_FIELD => Some (start_field p c)
  | IN_FIELD =>
      match c with
      | None => Some (set_state (parse_save_field p) START_RECORD)
      | Some ch =>
          if is_newline ch then Some (set_state (parse_save_field p) EAT_CRNL)
          else if Ascii.eqb ch delimiter
          then Some (set_state (parse_save_field p) START_FIELD)
          else Some (parse_add_char p ch)
      end
  | IN_QUOTED_FIELD =>
      match c with
      | None => Some p
      | Some ch =>
          if Ascii.eqb ch quotechar then Some (set_state p QUOTE_IN_QUOTED_FIELD)
          else Some (parse_add_char p ch)
      end
  | QUOTE_IN_QUOTED_FIELD =>
      match c with
      | None => Some (set_state (parse_save_field p) START_RECORD)
      | Some ch =>
          if Ascii.eqb ch quotechar
          then Some (set_state (parse_add_char p ch) IN_QUOTED_FIELD)
          else if Ascii.eqb ch delimiter
          then Some (set_state (parse_save_field p) START_FIELD)
          else if is_newline ch
          then Some (set_state (parse_save_field p) EAT_CRNL)
          else Some (set_state (parse_add_char p ch) IN_FIELD)
      end
  | EAT_CRNL =>
      match c with
      | None => Some (set_state p START_RECORD)
      | Some ch => if is_newline ch then Some p else None
      end
  end.

(** The characters of one line. *)
Fixpoint feed_line (p : parser) (line : string) : option parser :=
  match line with
  | EmptyString => Some p
  | String c line' =>
      match parse_process_char p (Some c) with
      | Some p' => feed_line p' line'
      | None => None
      end
  end.

(** All the records of the reader ([Reader_iternext] until the lines are
    exhausted); [p] is the parser of the record under way. *)
Fixpoint read_records (p : parser) (lines : list string)
  : option (list (list string)) :=
  match lines with
  | [] =>
      if negb (String.eqb (field p) EmptyString)
         || parser_state_eqb (state p) IN_QUOTED_FIELD
      then Some [fields (parse_save_field p)]
      else Some []
  | line :: lines' =>
      match feed_line p line with
      | None => None
      | Some p1 =>
          match parse_process_char p1 None with
          | None => None
          | Some p2 =>
              if parser_state_eqb (state p2) START_RECORD
              then option_map (cons (fields p2)) (read_records parse_reset lines')
              else read_records p2 lines'
          end
      end
  end.

(** [csv.reader(file)] on the content of a file opened in text mode. *)
Definition reader (content : string) : option (list (list string)) :=
  read_records parse_reset (readlines (universal_newlines content)).

(** [row[key]] for a row of [DictReader]: [Some None] is the [None] that
    fills a short row, [None] is [KeyError]. *)
Fixpoint last_value (key : string) (names row : list string)
    (found : option string) : option (option string) :=
  match names, row with
  | [], _ => option_map Some found
  | _ :: _, [] =>
      if existsb (String.eqb key) names then Some None
      else option_map Some found
  | n :: names', v :: row' =>
      last_value key names' row' (if String.eqb key n then Some v else found)
  end.

(** [[row[key] for row in DictReader(file)]]: the first record gives the
    field names, empty records are passed over. *)
Definition dict_column (key : string) (records : list (list string))
  : option (list (option string)) :=
  match records with
  | [] => Some []
  | names :: rows =>
      mapM (fun row => last_value key names row None)
           (filter (fun row => row <> []) rows)
  end.

End CsvRead.

(** ** The effectful functions of [main.py] *)

(** An f-string of a value that may be [None]. *)
Definition format_str (o : option string) : string := default "None" o.

Section Scraper.

Variable env : environment.

Definition with_history (w : world) (h : list action) : world :=
  {| existing_users := existing_users w;
     champions_csv := champions_csv w;
     history := h |}.

(** [requests.get]: the answer is fixed by what happened before. *)
Definition http_get {A} (api : list action -> response A) (r : request)
  : M (response A) :=
  fun w => (Return (api (history w)), with_history w (history w ++ [Http r])).

(** [datetime.now()] *)
Definition datetime_now : M datetime :=
  fun w => (Return (clock env (history w)), with_history w (history w ++ [Now])).

(** [time.sleep]: a negative length raises [ValueError]. *)
Definition time_sleep (microseconds : Z) : M unit :=
  if microseconds <? 0 then raise ValueError else perform (Sleep microseconds).

Definition get_existing_users : M (gset string) :=
  fun w => (Return (existing_users w), w).

(** [existing_users.add(username)] *)
Definition existing_users_add (username : string) : M unit :=
  fun w => (Return tt,
            {| existing_users := {[username]} ∪ existing_users w;
               champions_csv := champions_csv w;
               history := history w |}).

(** [check_rate_limit]: [None] is the bare [return] of the failure arm. *)
Definition check_rate_limit : M (option (Z * Z)) :=
  do response <- http_get (rate_limit_api env) GetRateLimit;
  if status_code response =? 200 then
    let data := json response in
    let search_remaining := remaining data in
    let search_reset := reset data in
    ret (Some (search_remaining, search_reset))
  else
    do _ <- print LogRateLimitFailed;
    ret None.

(** [a, b = value]: unpacking [None] raises [TypeError]. *)
Definition unpack {A B} (value : option (A * B)) : M (A * B) :=
  match value with
  | Some unpacked => ret unpacked
  | None => raise TypeError
  end.

Definition get_github_profile_data (username : string) : M (option profile_data) :=
  do response <- http_get (fun h => users_api env h username) (GetUser username);
  if status_code response =? 200 then ret (Some (json response))
  else
    do _ <- print (LogFetchProfileFailed username (status_code response));
    ret None.

(** The counting loop of [get_recent_commit_count]. *)
Fixpoint count_recent_pushes (last_month : datetime) (events : list gh_event)
    (commit_count : Z) : Z :=
  match events with
  | [] => commit_count
  | event :: events' =>
      if String.eqb (event_type event) "PushEvent" then
        let event_date := created_at event in
        if last_month <=? event_date
        then count_recent_pushes last_month events' (commit_count + 1)
        else count_recent_pushes last_month events' commit_count
      else count_recent_pushes last_month events' commit_count
  end.

Definition get_recent_commit_count (username : string) : M Z :=
  do now <- datetime_now;
  let last_month := now - thirty_days in
  do response <- http_get (fun h => events_api env h username) (GetUserEvents username);
  if status_code response =? 200 then
    let events := json response in
    ret (count_recent_pushes last_month events 0)
  else ret 0.

(** [append_to_csv]: the file is opened for appending (created when
    missing); [file.tell()] is then its length. *)
Definition append_to_csv (profile : profile_info) : M unit :=
  do _ <- (fun w =>
    let file := default EmptyString (champions_csv w) in
    let written :=
      (if (String.length file =? 0)%nat then header_row else EmptyString)
      +:+ data_row profile in
    (Return tt,
     {| existing_users := existing_users w;
        champions_csv := Some (file +:+ written);
        history := history w ++ [CsvAppend profile] |}));
  print (LogSaved (name profile)).

(** The strings among [values]: a [None] that a short row contributes is
    never equal to a username and is left out of the set of strings. *)
Definition strings_of (values : list (option string)) : gset string :=
  list_to_set (omap id values).

(** [load_existing_users]: a missing file gives the empty set; an error of
    the reader or a row without [name] is not caught. *)
Definition load_existing_users : M (gset string) :=
  do csv_file <- (fun w => (Return (champions_csv w), w));
  match csv_file with
  | None =>
      do _ <- print LogCsvNotFound;
      ret ∅
  | Some content =>
      match CsvRead.reader content with
      | None => raise CsvError
      | Some records =>
          match CsvRead.dict_column "name" records with
          | None => raise KeyError
          | Some names => ret (strings_of names)
          end
      end
  end.

(** The body of [for profile in data['items']]. *)
Definition process_profile (profile : search_item) : M unit :=
  do profile_data <- get_github_profile_data (item_login profile);
  match profile_data with
  | Some profile_data =>
      let username := item_login profile in
      do known <- get_existing_users;
      if decide (username ∈ known) then print (LogAlreadyExists username)
      else
        let company_name := pd_company profile_data in
        let bio := pd_bio profile_data in
        if is_excluded_company company_name
        then print (LogSkippedCompany username company_name)
        else if is_excluded_industry bio
        then print (LogSkippedIndustry username)
        else
          let role := extract_senior_title bio in
          if PyStr.truthy role then
            do commits <- get_recent_commit_count (format_str (pd_login profile_data));
            let profile_info :=
              {| name := username;
                 location := pd_location profile_data;
                 followers := pd_followers profile_data;
                 repos := pd_public_repos profile_data;
                 url := pd_html_url profile_data;
                 recent_commits := commits;
                 role := default EmptyString role |} in
            if 5 <=? recent_commits profile_info then
              do _ <- append_to_csv profile_info;
              do _ <- existing_users_add username;
              print (LogAdded username)
            else print (LogLowActivity username)
          else print (LogNoSeniorTitle username)
  | None => print (LogFetchDataFailed (item_login profile))
  end.

(** [int(wait_time)]: whole seconds, truncated towards zero. *)
Definition whole_seconds (microseconds : Z) : Z :=
  Z.quot microseconds microseconds_per_second.

(** [scrape_github]; [fuel] bounds the depth of the retry after a 403.
    The retry is a nested call: in Python a run of 403 answers ends in
    [RecursionError] at the interpreter's limit; here the call stops with
    [OutOfFuel] at the depth [fuel], and what it did up to there is what
    the program does up to there. *)
Fixpoint scrape_github (fuel : nat) (page : Z) : M bool :=
  match fuel with
  | O => out_of_fuel
  | S fuel' =>
      do _ <- print (LogScrapingPage page);
      do limits <- check_rate_limit;
      do limits <- unpack limits;
      let search_remaining := fst limits in
      let search_reset := snd limits in
      do _ <- (if search_remaining =? 0 then
                 let reset_time := fromtimestamp env search_reset in
                 do current_time <- datetime_now;
                 let wait_time := reset_time - current_time in
                 do _ <- print (LogRateLimitReached (whole_seconds wait_time));
                 time_sleep wait_time
               else ret tt);
      do response <- http_get (fun h => search_api env h page) (GetSearchUsers page);
      if status_code response =? 403 then
        do _ <- print LogForbidden;
        do _ <- time_sleep (60 * microseconds_per_second);
        scrape_github fuel' page
      else if status_code response =? 200 then
        let items := json response in
        let users_count := Z.of_nat (length items) in
        do _ <- print (LogPageReturned page users_count);
        if users_count =? 0 then
          do _ <- print (LogNoMoreUsers page);
          ret false
        else
          do _ <- for_each items process_profile;
          ret true
      else
        do _ <- print (LogError (status_code response));
        ret true
  end.

(** [while True] of the main block, from [page]; [fuel] bounds the number
    of pages and is handed on to [scrape_github]. *)
Fixpoint crawl (fuel : nat) (page : Z) : M unit :=
  match fuel with
  | O => out_of_fuel
  | S fuel' =>
      do should_continue <- scrape_github fuel' page;
      if negb should_continue then ret tt
      else crawl fuel' (page + 1)
  end.

(** The main block. *)
Definition main (fuel : nat) : M unit :=
  do loaded <- load_existing_users;
  do _ <- (fun w => (Return tt,
                     {| existing_users := loaded;
                        champions_csv := champions_csv w;
                        history := history w |}));
  crawl fuel 1.

End Scraper.

(** ** Notions the statements below are written with *)

(** [k] is the first entry of [keywords], in list order, that occurs in
    [text]. *)
Definition first_match (keywords : list string) (text k : string) : Prop :=
  exists i : nat,
    keywords !! i = Some k /\ PyStr.substring_of k text /\
    forall (j : nat) (k' : string),
      (j < i)%nat -> keywords !! j = Some k' -> ~ PyStr.substring_of k' text.

(** No entry of [keywords] occurs in [text]. *)
Definition no_match (keywords : list string) (text : string) : Prop :=
  forall k : string, k ∈ keywords -> ~ PyStr.substring_of k text.

(** Some entry of [keywords] occurs in [text]. *)
Definition some_match (keywords : list string) (text : string) : Prop :=
  exists k : string, k ∈ keywords /\ PyStr.substring_of k text.

(** The lower-cased text of a field; an absent field has none. *)
Definition folded (field : option string) : string :=
  PyStr.lower (default EmptyString field).

(** A field that is absent or empty. *)
Definition blank (field : option string) : Prop :=
  field = None \/ field = Some EmptyString.

(** A push-type event reported at or after [since]. *)
Definition pushed_since (since : datetime) (e : gh_event) : Prop :=
  event_type e = "PushEvent" /\ since <= created_at e.

#[global] Instance pushed_since_dec (since : datetime) (e : gh_event) :
  Decision (pushed_since since e).
Proof. unfold pushed_since. apply _. Defined.

(** A duration in days, in microseconds. *)
Definition days (n : Z) : Z := n * 86400 * microseconds_per_second.

(** The age, at the UTC instant [utc_now], of an event that reports the
    UTC instant [created]. *)
Definition age (utc_now created : datetime) : Z := utc_now - created.

(** A push-type event that is at most 30 days old at [utc_now]. *)
Definition recent_push (utc_now : datetime) (e : gh_event) : Prop :=
  event_type e = "PushEvent" /\ age utc_now (created_at e) <= days 30.

#[global] Instance recent_push_dec (utc_now : datetime) (e : gh_event) :
  Decision (recent_push utc_now e).
Proof. unfold recent_push. apply _. Defined.

(** The world after the process did [acts] more. *)
Definition after (w : world) (acts : list action) : world :=
  with_history w (history w ++ acts).

(** The answer of the user endpoint to the lookup that [process_profile]
    makes first. *)
Definition profile_response (env : environment) (w : world) (login : string)
  : response profile_data :=
  users_api env (history w) login.

(** The count that [get_recent_commit_count] finds when it is called after
    the history [h]. *)
Definition commits_seen (env : environment) (username : string)
    (h : list action) : Z :=
  let response := events_api env (h ++ [Now]) username in
  if status_code response =? 200
  then Z.of_nat (length (filter (pushed_since (clock env h - days 30))
                                (json response)))
  else 0.

(** The record that [process_profile] builds for a candidate. *)
Definition champion (login : string) (pd : profile_data) (commits : Z)
  : profile_info :=
  {| name := login;
     location := pd_location pd;
     followers := pd_followers pd;
     repos := pd_public_repos pd;
     url := pd_html_url pd;
     recent_commits := commits;
     role := default EmptyString (extract_senior_title (pd_bio pd)) |}.

(** The bytes that [append_to_csv] adds to a file of content [file]. *)
Definition written (file : option string) (profile : profile_info) : string :=
  match file with
  | None | Some EmptyString => header_row +:+ data_row profile
  | Some (String _ _) => data_row profile
  end.

(** The records appended to the file in a history. *)
Definition appended (acts : list action) : list profile_info :=
  omap (fun a => match a with CsvAppend p => Some p | _ => None end) acts.

(** The requests sent in a history. *)
Definition requests (acts : list action) : list request :=
  omap (fun a => match a with Http r => Some r | _ => None end) acts.

(** The world in which the candidate [profile] has been enrolled: its row
    is in the file, its name in the set, and [acts] are done. *)
Definition enrolled (w : world) (profile : profile_info) (acts : list action)
  : world :=
  {| existing_users := {[name profile]} ∪ existing_users w;
     champions_csv :=
       Some (default EmptyString (champions_csv w)
             +:+ written (champions_csv w) profile);
     history := history w ++ acts |}.

(** The texts of the cells of the row of [profile]. *)
Definition cells (profile : profile_info) : list string :=
  map Csv.text_of (row_values profile).

(** A text as it is read back from the file (text mode turns every
    carriage return or carriage return and line feed into a line feed). *)
Definition read_back (s : string) : string := CsvRead.universal_newlines s.

(** A text without carriage return. *)
Fixpoint no_carriage_return (s : string) : bool :=
  match s with
  | EmptyString => true
  | String c s' => negb (Ascii.eqb c Csv.CR) && no_carriage_return s'
  end.

(** The names of [profiles] as a later run reads them from the file. *)
Definition names_read (profiles : list profile_info) : list string :=
  map (fun p => read_back (name p)) profiles.

(** The records written one after the other. *)
Definition written_rows (rows : list (list string)) : string :=
  fold_right (fun row text => Csv.writerow row +:+ text) EmptyString rows.

(** A record of two fields or more. *)
Definition wide (row : list string) : Prop := (2 <= length row)%nat.

(** The file after the rows of [profiles] are appended to it one by one. *)
Definition file_after (file : option string) (profiles : list profile_info)
  : option string :=
  fold_left (fun f p => Some (default EmptyString f +:+ written f p))
            profiles file.

(** The ledger file that appending [profiles], starting without a file,
    leaves behind. *)
Definition ledger_file (profiles : list profile_info) : option string :=
  file_after None profiles.

(** [w'] is [w] after some more actions, in which every appended record
    carries a name that [w] did not know and that no other appended record
    carries, the set and the file having grown by exactly these records. *)
Definition grows (w w' : world) : Prop :=
  exists acts : list action,
    history w' = (history w ++ acts)%list /\
    NoDup (map name (appended acts)) /\
    (forall p : profile_info, p ∈ appended acts -> name p ∉ existing_users w) /\
    existing_users w' = list_to_set (map name (appended acts)) ∪ existing_users w /\
    champions_csv w' = file_after (champions_csv w) (appended acts).

(** A computation that can only make the world grow. *)
Definition growing {A} (m : M A) : Prop := forall w : world, grows w (snd (m w)).

(** What [scrape_github] does with the answer to its search request;
    [retry] is the call it makes again after a 403. *)
Definition handle_page (env : environment) (retry : M bool) (page : Z)
    (response : response (list search_item)) : M bool :=
  if status_code response =? 403 then
    do _ <- print LogForbidden;
    do _ <- time_sleep (60 * microseconds_per_second);
    retry
  else if status_code response =? 200 then
    let items := json response in
    let users_count := Z.of_nat (length items) in
    do _ <- print (LogPageReturned page users_count);
    if users_count =? 0 then
      do _ <- print (LogNoMoreUsers page);
      ret false
    else
      do _ <- for_each items (process_profile env);
      ret true
  else
    do _ <- print (LogError (status_code response));
    ret true.

(** The answer of the rate-limit endpoint to the probe that
    [scrape_github env _ page] makes from [w]. *)
Definition limits_seen (env : environment) (page : Z) (w : world)
  : response rate_limit_data :=
  rate_limit_api env (history w ++ [Print (LogScrapingPage page)]).

(** The wait that [scrape_github env _ page] computes from [w] when the
    quota is used up: reset time minus clock reading. *)
Definition wait_seen (env : environment) (page : Z) (w : world) : Z :=
  fromtimestamp env (reset (json (limits_seen env page w)))
  - clock env (history w ++ [Print (LogScrapingPage page); Http GetRateLimit]).

(** The rate-limit check passes: the probe answers 200 and, when the quota
    is used up, the wait is not negative. *)
Definition gate_open (env : environment) (page : Z) (w : world) : Prop :=
  status_code (limits_seen env page w) = 200 /\
  (remaining (json (limits_seen env page w)) = 0 -> 0 <= wait_seen env page w).

(** What is done before the search request when the check passes. *)
Definition gate_actions (env : environment) (page : Z) (w : world)
  : list action :=
  [Print (LogScrapingPage page); Http GetRateLimit] ++
  (if remaining (json (limits_seen env page w)) =? 0
   then [Now;
         Print (LogRateLimitReached (whole_seconds (wait_seen env page w)));
         Sleep (wait_seen env page w)]
   else []).

(** The answer to the search request of [scrape_github env _ page] from [w],
    when the check passes. *)
Definition page_response (env : environment) (page : Z) (w : world)
  : response (list search_item) :=
  search_api env (history w ++ gate_actions env page w) page.

(** In the history [h], no request follows the report of a failed page. *)
Definition no_request_after_error (h : list action) : Prop :=
  forall (before : list action) (status : Z) (rest : list action),
    h = (before ++ Print (LogError status) :: rest)%list -> requests rest = [].

(** ** A small world to try the statements on *)

Definition director : profile_data :=
  {| pd_login := Some "ada";
     pd_company := Some "Initech";
     pd_bio := Some "Director of Platform Engineering";
     pd_location := Some "Paris, France";
     pd_followers := Some 12;
     pd_public_repos := Some 30;
     pd_html_url := Some "https://github.com/ada" |}.

(** The company name "KPMG" written with U+212A KELVIN SIGN for its K. *)
Definition kelvin_pmg : string :=
  String "226" (String "132" (String "170" "PMG")).

(** [n] push events reported at the clock reading. *)
Definition pushes (n : nat) : list gh_event := repeat (mkEvent "PushEvent" 0) n.

(** An API whose answers do not depend on the history: [limits] to the
    rate-limit probe, [search page] to a search, [director] to a lookup, a
    feed of [n] pushes, and a clock that reads [now]. *)
Definition env_example (limits : response rate_limit_data)
    (search : Z -> response (list search_item)) (n : nat) (now : datetime)
  : environment :=
  {| rate_limit_api := fun _ => limits;
     search_api := fun _ page => search page;
     users_api := fun _ _ => mkResponse 200 director;
     events_api := fun _ _ => mkResponse 200 (pushes n);
     clock := fun _ => now;
     fromtimestamp := fun t => t * microseconds_per_second |}.

Definition quota_left : response rate_limit_data :=
  mkResponse 200 (mkRateLimit 10 0).

(** One candidate on page 1, nobody after. *)
Definition one_candidate (page : Z) : response (list search_item) :=
  mkResponse 200 (if page =? 1 then [mkItem "ada"] else []).

(** An API with one candidate on page 1, whose feed has [n] pushes. *)
Definition env_with (n : nat) : environment :=
  env_example quota_left one_candidate n 0.

(** Page 1 answers 500, the pages after it are empty. *)
Definition env_error_page : environment :=
  env_example quota_left
    (fun page => if page =? 1 then mkResponse 500 [] else mkResponse 200 [])
    0 0.

(** The local clock is one hour ahead of UTC, and the one push of the feed,
    reported at instant 0, is 30 days less one second old: the UTC instant
    is [days 30] less one second. *)
Definition env_clock_east : environment :=
  env_example quota_left one_candidate 1
    (days 30 - microseconds_per_second + 3600 * microseconds_per_second).

(** The rate-limit probe answers 500. *)
Definition env_probe_down : environment :=
  env_example (mkResponse 500 (mkRateLimit 0 0)) one_candidate 0 0.

(** The quota is used up and its reset time, second 1000, has passed by one
    second on the clock. *)
Definition env_reset_passed : environment :=
  env_example (mkResponse 200 (mkRateLimit 0 1000)) one_candidate 0
    (1001 * microseconds_per_second).

(** The quota is used up and is reset in 7 seconds. *)
Definition env_reset_ahead : environment :=
  env_example (mkResponse 200 (mkRateLimit 0 1000)) one_candidate 0
    (993 * microseconds_per_second).

(** No file, nobody known, nothing done yet. *)
Definition fresh_world : world :=
  {| existing_users := ∅; champions_csv := None; history := [] |}.

(** The process is started again on the ledger file that holds the row
    of the director "ada". *)
Definition restart_world : world :=
  {| existing_users := ∅;
     champions_csv := ledger_file [champion "ada" director 5];
     history := [] |}.

(** ** Strings *)

Lemma append_nil_r (s : string) : s +:+ EmptyString = s.
Proof. induction s as [|c s IH]; simpl; [reflexivity | now rewrite IH]. Qed.

Lemma append_assoc (a b c : string) : (a +:+ b) +:+ c = a +:+ (b +:+ c).
Proof. induction a as [|x a IH]; simpl; [reflexivity | now rewrite IH]. Qed.

Lemma append_cons (c : ascii) (a b : string) :
  String c a +:+ b = String c (a +:+ b).
Proof. reflexivity. Qed.

Lemma startswith_spec (p s : string) :
  PyStr.startswith p s = true <-> exists post, s = p +:+ post.
Proof.
  revert s; induction p as [|a p IH]; intros s; simpl.
  - split; [intros _; now exists s | reflexivity].
  - destruct s as [|b s].
    + split; [discriminate | intros [post H]; discriminate].
    + rewrite andb_true_iff, Ascii.eqb_eq, IH. split.
      * intros [-> [post ->]]. now exists post.
      * intros [post H]. injection H as -> ->. split; [reflexivity | now exists post].
Qed.

Lemma contains_spec (needle hay : string) :
  PyStr.contains needle hay = true <-> PyStr.substring_of needle hay.
Proof.
  unfold PyStr.substring_of. split.
  - induction hay as [|c hay IH]; simpl; rewrite orb_true_iff; intros [H|H].
    + apply startswith_spec in H as [post ->]. now exists EmptyString, post.
    + discriminate.
    + apply startswith_spec in H as [post ->]. now exists EmptyString, post.
    + destruct (IH H) as (pre & post & ->). now exists (String c pre), post.
  - intros (pre & post & ->). induction pre as [|c pre IH].
    + simpl. assert (H : PyStr.startswith needle (needle +:+ post) = true)
        by (apply startswith_spec; now exists post).
      destruct (needle +:+ post); simpl; rewrite H; reflexivity.
    + simpl. rewrite IH. apply orb_true_r.
Qed.

Lemma contains_false (needle hay : string) :
  PyStr.contains needle hay = false <-> ~ PyStr.substring_of needle hay.
Proof.
  rewrite <- contains_spec. destruct (PyStr.contains needle hay); split;
    congruence.
Qed.

(** ** The keyword scans *)

Lemma first_keyword_first (keywords : list string) (text k : string) :
  first_keyword keywords text = Some k <-> first_match keywords text k.
Proof.
  unfold first_match. induction keywords as [|kw keywords IH]; simpl.
  - split; [discriminate | intros (i & H & _); now rewrite lookup_nil in H].
  - destruct (PyStr.contains kw text) eqn:E.
    + split.
      * intros [= <-]. exists 0%nat. split; [reflexivity|].
        split; [now apply contains_spec | intros; lia].
      * intros ([|i] & H & Hk & Hfirst).
        -- simpl in H. congruence.
        -- exfalso. apply (Hfirst 0%nat kw); [lia | reflexivity |].
           now apply contains_spec.
    + rewrite IH. apply contains_false in E. split.
      * intros (i & H & Hk & Hfirst). exists (S i). split; [exact H|].
        split; [exact Hk|]. intros [|j] k' Hj Hl; simpl in Hl.
        -- injection Hl as <-. exact E.
        -- apply (Hfirst j); [lia | exact Hl].
      * intros ([|i] & H & Hk & Hfirst); simpl in H.
        -- injection H as ->. contradiction.
        -- exists i. split; [exact H|]. split; [exact Hk|].
           intros j k' Hj Hl. apply (Hfirst (S j)); [lia | exact Hl].
Qed.

Lemma first_keyword_none (keywords : list string) (text : string) :
  first_keyword keywords text = None <-> no_match keywords text.
Proof.
  unfold no_match. induction keywords as [|kw keywords IH]; simpl.
  - split; [intros _ k H; inversion H | reflexivity].
  - destruct (PyStr.contains kw text) eqn:E.
    + split; [discriminate|]. intros H. exfalso.
      apply (H kw); [left | now apply contains_spec].
    + rewrite IH. apply contains_false in E. split.
      * intros H k Hk. inversion Hk; subst; [exact E | now apply H].
      * intros H k Hk. apply H. now right.
Qed.

Lemma any_in_spec (blocklist : list string) (text : string) :
  any_in blocklist text = true <-> some_match blocklist text.
Proof.
  unfold any_in, some_match. rewrite existsb_exists. split.
  - intros (k & Hin & Hc). exists k. split;
      [now apply list_elem_of_In | now apply contains_spec].
  - intros (k & Hin & Hc). exists k. split;
      [now apply list_elem_of_In | now apply contains_spec].
Qed.

Lemma lowered_text (bio : option string) :
  (if PyStr.truthy bio then PyStr.lower (default EmptyString bio)
   else EmptyString) = folded bio.
Proof. now destruct bio as [[|c s]|]. Qed.

Lemma extract_senior_title_folded (bio : option string) :
  extract_senior_title bio =
  match first_keyword SENIORITY_KEYWORDS (folded bio) with
  | Some keyword => Some (PyStr.capitalize keyword)
  | None =>
      match first_keyword STARTUP_KEYWORDS (folded bio) with
      | Some _ => Some "Startup/VC involvement"
      | None => None
      end
  end.
Proof. unfold extract_senior_title. now rewrite lowered_text. Qed.

(** ** Worlds and histories *)

Lemma after_after (w : world) (a b : list action) :
  after (after w a) b = after w (a ++ b).
Proof. unfold after, with_history; simpl. now rewrite <- app_assoc. Qed.

Lemma after_nil (w : world) : after w [] = w.
Proof. destruct w. unfold after, with_history; simpl. now rewrite app_nil_r. Qed.

Lemma history_after (w : world) (acts : list action) :
  history (after w acts) = (history w ++ acts)%list.
Proof. reflexivity. Qed.

Lemma existing_users_after (w : world) (acts : list action) :
  existing_users (after w acts) = existing_users w.
Proof. reflexivity. Qed.

Lemma perform_after (a : action) (w : world) :
  perform a w = (Return tt, after w [a]).
Proof. reflexivity. Qed.

Lemma print_run (l : log_line) (w : world) :
  print l w = (Return tt, after w [Print l]).
Proof. reflexivity. Qed.

Lemma http_get_run {A} (api : list action -> response A) (r : request) (w : world) :
  http_get api r w = (Return (api (history w)), after w [Http r]).
Proof. reflexivity. Qed.

Lemma datetime_now_run (env : environment) (w : world) :
  datetime_now env w = (Return (clock env (history w)), after w [Now]).
Proof. reflexivity. Qed.

Lemma bind_run {A B} (m : M A) (k : A -> M B) (w w' : world) (a : A) :
  m w = (Return a, w') -> bind m k w = k a w'.
Proof. intros H. unfold bind. now rewrite H. Qed.

Lemma bind_raise {A B} (m : M A) (k : A -> M B) (w w' : world) (e : exn) :
  m w = (Raise e, w') -> bind m k w = (Raise e, w').
Proof. intros H. unfold bind. now rewrite H. Qed.

Lemma ret_run {A} (a : A) (w : world) : ret a w = (Return a, w).
Proof. reflexivity. Qed.

#[local] Arguments after : simpl never.

(** Run the next call of a [do] block with its run lemma. *)
Ltac step lemma := erewrite bind_run by (apply lemma); cbv beta.

(** ** Recent activity *)

Lemma count_recent_pushes_filter (since : datetime) (events : list gh_event)
    (commit_count : Z) :
  count_recent_pushes since events commit_count =
  commit_count + Z.of_nat (length (filter (pushed_since since) events)).
Proof.
  revert commit_count. induction events as [|e events IH]; intros n; simpl.
  - lia.
  - destruct (String.eqb (event_type e) "PushEvent") eqn:Et.
    + apply String.eqb_eq in Et. destruct (since <=? created_at e) eqn:Ed.
      * apply Z.leb_le in Ed. rewrite filter_cons_True by (split; assumption).
        rewrite IH. simpl length. lia.
      * apply Z.leb_gt in Ed. rewrite filter_cons_False by (intros [_ H]; lia).
        apply IH.
    + apply String.eqb_neq in Et.
      rewrite filter_cons_False by (intros [H _]; contradiction). apply IH.
Qed.

Lemma get_recent_commit_count_run (env : environment) (username : string) (w : world) :
  get_recent_commit_count env username w =
  (Return (commits_seen env username (history w)),
   after w [Now; Http (GetUserEvents username)]).
Proof.
  unfold get_recent_commit_count, commits_seen.
  step datetime_now_run. step @http_get_run.
  rewrite after_after, history_after. simpl app.
  destruct (status_code (events_api env (history w ++ [Now]) username) =? 200).
  - rewrite ret_run. now rewrite count_recent_pushes_filter, Z.add_0_l.
  - apply ret_run.
Qed.

(** C8, as the code has it: the recent-commit count of an identity is the
    number of entries of the events feed that are push events reported at
    or after the reading of the local clock minus 30 days, the bound
    included (a push reported 30 days less one second before the reading
    counts, one reported exactly 30 days before it counts, one reported 31
    days before it does not); when the events request does not answer 200
    the count is 0 and nothing is raised.  The reading is local time and
    the reported instants are UTC: with the local clock [offset] ahead of
    UTC, a push is counted when its age is at most 30 days less [offset].
    Where local time is UTC this is the window of the trailing 30 days;
    with the clock more than a second ahead, a push that is 30 days less
    one second old is not counted. *)
Theorem recent_commit_count (env : environment) (username : string) (w : world) :
  let now := clock env (history w) in
  let response := events_api env (history w ++ [Now]) username in
  let w' := after w [Now; Http (GetUserEvents username)] in
  (status_code response = 200 ->
   get_recent_commit_count env username w =
   (Return (Z.of_nat (length (filter (pushed_since (now - days 30))
                                     (json response)))), w')) /\
  (status_code response <> 200 ->
   get_recent_commit_count env username w = (Return 0, w')) /\
  (forall events : list gh_event,
      count_recent_pushes (now - thirty_days)
        (mkEvent "PushEvent" (now - (days 30 - microseconds_per_second)) :: events) 0 =
      1 + count_recent_pushes (now - thirty_days) events 0) /\
  (forall events : list gh_event,
      count_recent_pushes (now - thirty_days)
        (mkEvent "PushEvent" (now - days 30) :: events) 0 =
      1 + count_recent_pushes (now - thirty_days) events 0) /\
  (forall events : list gh_event,
      count_recent_pushes (now - thirty_days)
        (mkEvent "PushEvent" (now - days 31) :: events) 0 =
      count_recent_pushes (now - thirty_days) events 0) /\
  (forall (utc_now offset : Z) (e : gh_event),
      now = utc_now + offset ->
      (pushed_since (now - days 30) e <->
       event_type e = "PushEvent" /\
       age utc_now (created_at e) <= days 30 - offset)) /\
  (forall utc_now : Z,
      now = utc_now ->
      status_code response = 200 ->
      get_recent_commit_count env username w =
      (Return (Z.of_nat (length (filter (recent_push utc_now) (json response)))),
       w')) /\
  (forall utc_now offset : Z,
      now = utc_now + offset ->
      microseconds_per_second < offset ->
      status_code response = 200 ->
      json response =
      [mkEvent "PushEvent" (utc_now - (days 30 - microseconds_per_second))] ->
      recent_push utc_now
        (mkEvent "PushEvent" (utc_now - (days 30 - microseconds_per_second))) /\
      get_recent_commit_count env username w = (Return 0, w')).
Proof.
  intros now response w'.
  assert (Hrun : status_code response = 200 ->
                 get_recent_commit_count env username w =
                 (Return (Z.of_nat (length (filter (pushed_since (now - days 30))
                                                   (json response)))), w')).
  { intros H. rewrite get_recent_commit_count_run. unfold commits_seen.
    fold response. now rewrite H. }
  split; [exact Hrun|]. split; [|split; [|split; [|split; [|split; [|split]]]]].
  - intros H. rewrite get_recent_commit_count_run. unfold commits_seen.
    fold response. apply Z.eqb_neq in H. now rewrite H.
  - intros events. rewrite !count_recent_pushes_filter.
    rewrite filter_cons_True; [simpl length; lia|].
    split; [reflexivity|]. unfold thirty_days, days, microseconds_per_second.
    simpl. lia.
  - intros events. rewrite !count_recent_pushes_filter.
    rewrite filter_cons_True; [simpl length; lia|].
    split; [reflexivity|]. unfold thirty_days, days, microseconds_per_second.
    simpl. lia.
  - intros events. rewrite !count_recent_pushes_filter.
    rewrite filter_cons_False; [reflexivity|].
    intros [_ H]. unfold thirty_days, days, microseconds_per_second in H.
    simpl in H. lia.
  - intros utc_now offset e Hnow. unfold pushed_since, age. rewrite Hnow.
    split; intros [Ht Hd]; (split; [exact Ht | lia]).
  - intros utc_now Hnow H200. rewrite (Hrun H200). do 4 f_equal.
    apply list_filter_iff. intros e. unfold pushed_since, recent_push, age.
    rewrite Hnow. split; intros [Ht Hd]; (split; [exact Ht | lia]).
  - intros utc_now offset Hnow Hoffset H200 Hfeed. split.
    + split; [reflexivity|]. unfold age. cbn [created_at].
      unfold days, microseconds_per_second. lia.
    + rewrite (Hrun H200), Hfeed.
      rewrite filter_cons_False; [reflexivity|].
      intros [_ Hd]. cbn [created_at] in Hd. lia.
Qed.

Lemma recent_commit_count_witness :
  recent_push (days 30 - microseconds_per_second) (mkEvent "PushEvent" 0) /\
  get_recent_commit_count env_clock_east "ada" fresh_world =
  (Return 0, after fresh_world [Now; Http (GetUserEvents "ada")]).
Proof.
  apply (recent_commit_count env_clock_east "ada" fresh_world)
    with (offset := 3600 * microseconds_per_second).
  - reflexivity.
  - reflexivity.
  - reflexivity.
  - reflexivity.
Defined.

(** ** One candidate *)

Lemma get_github_profile_data_run (env : environment) (login : string) (w : world) :
  get_github_profile_data env login w =
  let response := profile_response env w login in
  if status_code response =? 200
  then (Return (Some (json response)), after w [Http (GetUser login)])
  else (Return None,
        after w [Http (GetUser login);
                 Print (LogFetchProfileFailed login (status_code response))]).
Proof.
  unfold get_github_profile_data, profile_response.
  step @http_get_run. cbv zeta.
  destruct (status_code (users_api env (history w) login) =? 200).
  - apply ret_run.
  - step print_run. rewrite after_after. apply ret_run.
Qed.

Lemma append_to_csv_run (profile : profile_info) (w : world) :
  append_to_csv profile w =
  (Return tt,
   {| existing_users := existing_users w;
      champions_csv :=
        Some (default EmptyString (champions_csv w)
              +:+ written (champions_csv w) profile);
      history := history w ++ [CsvAppend profile; Print (LogSaved (name profile))] |}).
Proof.
  unfold append_to_csv, bind, print, perform, written. simpl.
  rewrite <- app_assoc. simpl.
  destruct (champions_csv w) as [[|c file]|]; reflexivity.
Qed.

Lemma role_not_empty (bio : option string) (r : string) :
  extract_senior_title bio = Some r -> PyStr.truthy (Some r) = true.
Proof.
  rewrite extract_senior_title_folded.
  unfold SENIORITY_KEYWORDS, STARTUP_KEYWORDS, first_keyword.
  repeat match goal with
         | |- context [PyStr.contains ?k ?t] => destruct (PyStr.contains k t)
         end; intros [= <-]; reflexivity.
Qed.

Section Candidate.

Variable env : environment.
Variable profile : search_item.
Variable w : world.

Let login : string := item_login profile.
Let response : response profile_data := profile_response env w login.
Let pd : profile_data := json response.

Lemma process_profile_fetch_failed :
  status_code response <> 200 ->
  process_profile env profile w =
  (Return tt,
   after w [Http (GetUser login);
            Print (LogFetchProfileFailed login (status_code response));
            Print (LogFetchDataFailed login)]).
Proof.
  intros H. apply Z.eqb_neq in H. unfold process_profile.
  erewrite bind_run by (rewrite get_github_profile_data_run; cbv zeta;
                        fold login response; rewrite H; reflexivity).
  cbv beta iota. rewrite print_run, after_after. reflexivity.
Qed.

Lemma process_profile_fetched (k : profile_data -> M unit) :
  status_code response = 200 ->
  bind (get_github_profile_data env login)
       (fun r => match r with
                 | Some profile_data => k profile_data
                 | None => print (LogFetchDataFailed login)
                 end) w =
  k pd (after w [Http (GetUser login)]).
Proof.
  intros H. apply Z.eqb_eq in H.
  erewrite bind_run by (rewrite get_github_profile_data_run; cbv zeta;
                        fold response; rewrite H; reflexivity).
  reflexivity.
Qed.

Lemma process_profile_known :
  status_code response = 200 ->
  login ∈ existing_users w ->
  process_profile env profile w =
  (Return tt, after w [Http (GetUser login); Print (LogAlreadyExists login)]).
Proof.
  intros H Hin. unfold process_profile. fold login.
  rewrite process_profile_fetched by exact H.
  unfold bind, get_existing_users. rewrite existing_users_after.
  rewrite decide_True by exact Hin.
  rewrite print_run, after_after. reflexivity.
Qed.

Lemma process_profile_new :
  status_code response = 200 ->
  login ∉ existing_users w ->
  process_profile env profile w =
  (if is_excluded_company (pd_company pd)
   then print (LogSkippedCompany login (pd_company pd))
   else if is_excluded_industry (pd_bio pd)
   then print (LogSkippedIndustry login)
   else
     if PyStr.truthy (extract_senior_title (pd_bio pd)) then
       do commits <- get_recent_commit_count env (format_str (pd_login pd));
       if 5 <=? commits then
         do _ <- append_to_csv (champion login pd commits);
         do _ <- existing_users_add login;
         print (LogAdded login)
       else print (LogLowActivity login)
     else print (LogNoSeniorTitle login))
    (after w [Http (GetUser login)]).
Proof.
  intros H Hin. unfold process_profile. fold login.
  rewrite process_profile_fetched by exact H.
  unfold bind at 1. unfold get_existing_users. rewrite existing_users_after.
  rewrite decide_False by exact Hin. reflexivity.
Qed.

Lemma process_profile_excluded_company :
  status_code response = 200 ->
  login ∉ existing_users w ->
  is_excluded_company (pd_company pd) = true ->
  process_profile env profile w =
  (Return tt,
   after w [Http (GetUser login);
            Print (LogSkippedCompany login (pd_company pd))]).
Proof.
  intros H Hin Hc. rewrite process_profile_new by assumption.
  rewrite Hc, print_run, after_after. reflexivity.
Qed.

Lemma process_profile_excluded_industry :
  status_code response = 200 ->
  login ∉ existing_users w ->
  is_excluded_company (pd_company pd) = false ->
  is_excluded_industry (pd_bio pd) = true ->
  process_profile env profile w =
  (Return tt,
   after w [Http (GetUser login); Print (LogSkippedIndustry login)]).
Proof.
  intros H Hin Hc Hi. rewrite process_profile_new by assumption.
  rewrite Hc, Hi, print_run, after_after. reflexivity.
Qed.

Lemma process_profile_no_title :
  status_code response = 200 ->
  login ∉ existing_users w ->
  is_excluded_company (pd_company pd) = false ->
  is_excluded_industry (pd_bio pd) = false ->
  extract_senior_title (pd_bio pd) = None ->
  process_profile env profile w =
  (Return tt,
   after w [Http (GetUser login); Print (LogNoSeniorTitle login)]).
Proof.
  intros H Hin Hc Hi Hr. rewrite process_profile_new by assumption.
  rewrite Hc, Hi, Hr. unfold PyStr.truthy.
  rewrite print_run, after_after. reflexivity.
Qed.

(** The count found for a candidate that reached the activity stage. *)
Let commits : Z :=
  commits_seen env (format_str (pd_login pd))
    (history w ++ [Http (GetUser login)]).

Let lookups : list action :=
  [Http (GetUser login); Now; Http (GetUserEvents (format_str (pd_login pd)))].

Lemma process_profile_low_activity (r : string) :
  status_code response = 200 ->
  login ∉ existing_users w ->
  is_excluded_company (pd_company pd) = false ->
  is_excluded_industry (pd_bio pd) = false ->
  extract_senior_title (pd_bio pd) = Some r ->
  commits < 5 ->
  process_profile env profile w =
  (Return tt, after w (lookups ++ [Print (LogLowActivity login)])).
Proof.
  intros H Hin Hc Hi Hr Hlow. rewrite process_profile_new by assumption.
  rewrite Hc, Hi, Hr. rewrite (role_not_empty _ _ Hr).
  step get_recent_commit_count_run. rewrite history_after. fold commits.
  apply Z.leb_gt in Hlow. rewrite Hlow.
  rewrite print_run, !after_after. reflexivity.
Qed.

Lemma process_profile_enrolled (r : string) :
  status_code response = 200 ->
  login ∉ existing_users w ->
  is_excluded_company (pd_company pd) = false ->
  is_excluded_industry (pd_bio pd) = false ->
  extract_senior_title (pd_bio pd) = Some r ->
  5 <= commits ->
  process_profile env profile w =
  (Return tt,
   enrolled w (champion login pd commits)
     (lookups ++ [CsvAppend (champion login pd commits);
                  Print (LogSaved login); Print (LogAdded login)])).
Proof.
  intros H Hin Hc Hi Hr Hhigh. rewrite process_profile_new by assumption.
  rewrite Hc, Hi, Hr. rewrite (role_not_empty _ _ Hr).
  step get_recent_commit_count_run. rewrite history_after. fold commits.
  apply Z.leb_le in Hhigh. rewrite Hhigh.
  step append_to_csv_run.
  unfold bind, existing_users_add, print, perform, enrolled, after, with_history.
  simpl. rewrite <- !app_assoc. reflexivity.
Qed.

End Candidate.

(** ** Roles *)

(** C5: role extraction scans the ordered seniority list over the
    lower-cased biography and the first keyword found wins, its capitalized
    form being the label; with no seniority keyword, any keyword of the
    startup list gives the label "Startup/VC involvement"; with neither, or
    with an empty or absent biography, there is no role, and a new candidate
    that is not excluded is then reported as having no senior title and
    nothing is appended; biographies that differ only in letter case get
    the same answer; "Director of Platform Engineering" gives "Director",
    and with 7 recent pushes that candidate is enrolled with this role. *)
Theorem role_extraction :
  (forall (bio : option string) (k : string),
      first_match SENIORITY_KEYWORDS (folded bio) k ->
      extract_senior_title bio = Some (PyStr.capitalize k)) /\
  (forall bio : option string,
      no_match SENIORITY_KEYWORDS (folded bio) ->
      some_match STARTUP_KEYWORDS (folded bio) ->
      extract_senior_title bio = Some "Startup/VC involvement") /\
  (forall bio : option string,
      no_match SENIORITY_KEYWORDS (folded bio) ->
      no_match STARTUP_KEYWORDS (folded bio) ->
      extract_senior_title bio = None) /\
  (forall bio : option string, blank bio -> extract_senior_title bio = None) /\
  (forall (env : environment) (profile : search_item) (w : world),
      let login := item_login profile in
      let response := profile_response env w login in
      status_code response = 200 ->
      login ∉ existing_users w ->
      is_excluded_company (pd_company (json response)) = false ->
      is_excluded_industry (pd_bio (json response)) = false ->
      extract_senior_title (pd_bio (json response)) = None ->
      process_profile env profile w =
      (Return tt, after w [Http (GetUser login); Print (LogNoSeniorTitle login)])) /\
  (forall b1 b2 : string,
      PyStr.same_modulo_case b1 b2 ->
      extract_senior_title (Some b1) = extract_senior_title (Some b2)) /\
  extract_senior_title (Some "Director of Platform Engineering") = Some "Director" /\
  process_profile (env_with 7) (mkItem "ada") fresh_world =
  (Return tt,
   enrolled fresh_world
     {| name := "ada";
        location := Some "Paris, France";
        followers := Some 12;
        repos := Some 30;
        url := Some "https://github.com/ada";
        recent_commits := 7;
        role := "Director" |}
     [Http (GetUser "ada"); Now; Http (GetUserEvents "ada");
      CsvAppend (champion "ada" director 7);
      Print (LogSaved "ada"); Print (LogAdded "ada")]).
Proof.
  split; [|split; [|split; [|split; [|split; [|split; [|split]]]]]].
  - intros bio k H. rewrite extract_senior_title_folded.
    apply first_keyword_first in H. now rewrite H.
  - intros bio Hno Hsome. rewrite extract_senior_title_folded.
    apply first_keyword_none in Hno. rewrite Hno.
    destruct (first_keyword STARTUP_KEYWORDS (folded bio)) eqn:E; [reflexivity|].
    exfalso. apply first_keyword_none in E. destruct Hsome as (k & Hk & Hsub).
    exact (E k Hk Hsub).
  - intros bio H1 H2. rewrite extract_senior_title_folded.
    apply first_keyword_none in H1, H2. now rewrite H1, H2.
  - intros bio [-> | ->]; reflexivity.
  - intros env profile w login response H Hin Hc Hi Hr.
    now apply process_profile_no_title.
  - intros b1 b2 H. rewrite !extract_senior_title_folded.
    unfold folded; simpl. now rewrite H.
  - reflexivity.
  - reflexivity.
Qed.

(** What one candidate can do to the world: the lookup comes first, and
    then either nothing is appended, or the candidate was not known and
    exactly its row is appended and its name recorded. *)
Lemma process_profile_effect (env : environment) (profile : search_item) (w : world) :
  let login := item_login profile in
  exists rest : list action,
    (appended rest = [] /\
     process_profile env profile w =
     (Return tt, after w (Http (GetUser login) :: rest))) \/
    (exists p : profile_info,
        name p = login /\ (login ∉ existing_users w) /\ appended rest = [p] /\
        process_profile env profile w =
        (Return tt, enrolled w p (Http (GetUser login) :: rest))).
Proof.
  intros login.
  destruct (Z.eq_dec (status_code (profile_response env w login)) 200) as [H|H].
  2: { eexists. left. rewrite process_profile_fetch_failed by exact H.
       split; [|reflexivity]. reflexivity. }
  destruct (decide (login ∈ existing_users w)) as [Hin|Hin].
  { eexists. left. rewrite process_profile_known by assumption.
    split; [|reflexivity]. reflexivity. }
  set (pd := json (profile_response env w login)).
  destruct (is_excluded_company (pd_company pd)) eqn:Hc.
  { eexists. left. rewrite process_profile_excluded_company by assumption.
    split; [|reflexivity]. reflexivity. }
  destruct (is_excluded_industry (pd_bio pd)) eqn:Hi.
  { eexists. left. rewrite process_profile_excluded_industry by assumption.
    split; [|reflexivity]. reflexivity. }
  destruct (extract_senior_title (pd_bio pd)) as [r|] eqn:Hr.
  2: { eexists. left. rewrite process_profile_no_title by assumption.
       split; [|reflexivity]. reflexivity. }
  set (commits := commits_seen env (format_str (pd_login pd))
                    (history w ++ [Http (GetUser login)])).
  destruct (Z.lt_ge_cases commits 5) as [Hlow|Hhigh].
  - eexists. left. rewrite (process_profile_low_activity env profile w r) by assumption.
    split; [|reflexivity]. reflexivity.
  - eexists. right. exists (champion login pd commits).
    rewrite (process_profile_enrolled env profile w r) by assumption.
    split; [reflexivity|]. split; [exact Hin|]. split; [|reflexivity].
    reflexivity.
Qed.

(** C10: the profile lookup of a candidate is sent before the set of known
    names is consulted: whatever the candidate, the first thing done is the
    lookup; a known name whose lookup answers 200 costs exactly that one
    request and is then skipped as known; a known name whose lookup does not
    answer 200 is reported as a failed fetch, not as known. *)
Theorem lookup_precedes_dedup (env : environment) (profile : search_item) (w : world) :
  let login := item_login profile in
  let response := profile_response env w login in
  (exists rest : list action,
      history (snd (process_profile env profile w)) =
      (history w ++ Http (GetUser login) :: rest)%list) /\
  (login ∈ existing_users w -> status_code response = 200 ->
   process_profile env profile w =
   (Return tt, after w [Http (GetUser login); Print (LogAlreadyExists login)])) /\
  (login ∈ existing_users w -> status_code response <> 200 ->
   process_profile env profile w =
   (Return tt,
    after w [Http (GetUser login);
             Print (LogFetchProfileFailed login (status_code response));
             Print (LogFetchDataFailed login)])).
Proof.
  intros login response. split; [|split].
  - destruct (process_profile_effect env profile w) as (rest & [[_ H] | (p & _ & _ & _ & H)]);
      exists rest; rewrite H; reflexivity.
  - intros Hin H. now apply process_profile_known.
  - intros _ H. now apply process_profile_fetch_failed.
Qed.

(** ** Exclusions *)

Lemma excluded_spec (blocklist : list string) (field : option string) :
  (if negb (PyStr.truthy field) then false
   else any_in blocklist (PyStr.lower (default EmptyString field))) = true <->
  exists s : string,
    field = Some s /\ s <> EmptyString /\ some_match blocklist (PyStr.lower s).
Proof.
  destruct field as [[|c s]|]; simpl negb; cbv iota.
  - split; [discriminate | intros (s & [= <-] & H & _); contradiction].
  - rewrite any_in_spec. split.
    + intros H. exists (String c s). split; [reflexivity|]. split; [discriminate|].
      exact H.
    + intros (s' & [= <-] & _ & H). exact H.
  - split; [discriminate | intros (s & H & _); discriminate].
Qed.

(** C6: a company or a biography excludes exactly when it is a non-empty
    text that, lower-cased, contains an entry of its block-list (so an
    empty or absent field never excludes); a new candidate with an excluded
    company, or else with an excluded biography, is skipped for that reason
    whatever role its biography would give; the company "Google Inc." is
    excluded, and so is "KPMG" written with the KELVIN SIGN, which
    lower-cases to "kpmg"; the biography "Senior engineer, ex-fintech
    advisor" is excluded by industry although role extraction would answer
    "Engineer" and a startup keyword occurs in it. *)
Theorem exclusion_precedes_role :
  (forall company : option string,
      is_excluded_company company = true <->
      exists s : string,
        company = Some s /\ s <> EmptyString /\
        some_match EXCLUDED_COMPANIES (PyStr.lower s)) /\
  (forall bio : option string,
      is_excluded_industry bio = true <->
      exists s : string,
        bio = Some s /\ s <> EmptyString /\
        some_match EXCLUDED_INDUSTRIES (PyStr.lower s)) /\
  (forall field : option string,
      blank field ->
      is_excluded_company field = false /\ is_excluded_industry field = false) /\
  (forall (env : environment) (profile : search_item) (w : world),
      let login := item_login profile in
      let response := profile_response env w login in
      status_code response = 200 ->
      login ∉ existing_users w ->
      is_excluded_company (pd_company (json response)) = true ->
      process_profile env profile w =
      (Return tt,
       after w [Http (GetUser login);
                Print (LogSkippedCompany login (pd_company (json response)))])) /\
  (forall (env : environment) (profile : search_item) (w : world),
      let login := item_login profile in
      let response := profile_response env w login in
      status_code response = 200 ->
      login ∉ existing_users w ->
      is_excluded_company (pd_company (json response)) = false ->
      is_excluded_industry (pd_bio (json response)) = true ->
      process_profile env profile w =
      (Return tt, after w [Http (GetUser login); Print (LogSkippedIndustry login)])) /\
  is_excluded_company (Some "Google Inc.") = true /\
  (PyStr.lower kelvin_pmg = "kpmg" /\
   is_excluded_company (Some kelvin_pmg) = true) /\
  (let bio := Some "Senior engineer, ex-fintech advisor" in
   is_excluded_industry bio = true /\
   extract_senior_title bio = Some "Engineer" /\
   PyStr.contains "advisor" (folded bio) = true).
Proof.
  split; [|split; [|split; [|split; [|split; [|split; [|split]]]]]].
  - intros company. apply excluded_spec.
  - intros bio. apply excluded_spec.
  - intros field [-> | ->]; split; reflexivity.
  - intros env profile w login response H Hin Hc.
    now apply process_profile_excluded_company.
  - intros env profile w login response H Hin Hc Hi.
    now apply process_profile_excluded_industry.
  - reflexivity.
  - split; reflexivity.
  - repeat split.
Qed.

(** ** The activity threshold *)

(** C7: for a new candidate that passed the exclusions and has a role, with
    [commits] the count found for it: when [commits] is 5 or more its row is
    appended to the file, its name is recorded and it is reported as added;
    when [commits] is below 5 it is reported as not active enough, and the
    file and the set of known names stay as they were. *)
Theorem activity_threshold (env : environment) (profile : search_item)
    (w : world) (r : string) :
  let login := item_login profile in
  let pd := json (profile_response env w login) in
  let commits :=
    commits_seen env (format_str (pd_login pd))
      (history w ++ [Http (GetUser login)]) in
  let lookups :=
    [Http (GetUser login); Now; Http (GetUserEvents (format_str (pd_login pd)))] in
  status_code (profile_response env w login) = 200 ->
  login ∉ existing_users w ->
  is_excluded_company (pd_company pd) = false ->
  is_excluded_industry (pd_bio pd) = false ->
  extract_senior_title (pd_bio pd) = Some r ->
  (5 <= commits ->
   process_profile env profile w =
   (Return tt,
    enrolled w (champion login pd commits)
      (lookups ++ [CsvAppend (champion login pd commits);
                   Print (LogSaved login); Print (LogAdded login)]))) /\
  (commits < 5 ->
   process_profile env profile w =
   (Return tt, after w (lookups ++ [Print (LogLowActivity login)])) /\
   champions_csv (snd (process_profile env profile w)) = champions_csv w /\
   existing_users (snd (process_profile env profile w)) = existing_users w).
Proof.
  intros login pd commits lookups H Hin Hc Hi Hr. split.
  - intros Hhigh. now apply (process_profile_enrolled env profile w r).
  - intros Hlow.
    rewrite (process_profile_low_activity env profile w r) by assumption.
    repeat split.
Qed.

Lemma activity_threshold_witness :
  process_profile (env_with 5) (mkItem "ada") fresh_world =
  (Return tt,
   enrolled fresh_world (champion "ada" director 5)
     [Http (GetUser "ada"); Now; Http (GetUserEvents "ada");
      CsvAppend (champion "ada" director 5);
      Print (LogSaved "ada"); Print (LogAdded "ada")]) /\
  process_profile (env_with 4) (mkItem "ada") fresh_world =
  (Return tt,
   after fresh_world
     [Http (GetUser "ada"); Now; Http (GetUserEvents "ada");
      Print (LogLowActivity "ada")]).
Proof.
  split.
  - apply (activity_threshold (env_with 5) (mkItem "ada") fresh_world "Director");
      try reflexivity; apply not_elem_of_empty.
  - apply (activity_threshold (env_with 4) (mkItem "ada") fresh_world "Director");
      try reflexivity; apply not_elem_of_empty.
Defined.

(** ** The ledger only grows, by names that were not known *)

Lemma appended_app (a b : list action) :
  appended (a ++ b) = (appended a ++ appended b)%list.
Proof. unfold appended. apply omap_app. Qed.

Lemma file_after_app (file : option string) (ps qs : list profile_info) :
  file_after file (ps ++ qs) = file_after (file_after file ps) qs.
Proof. unfold file_after. apply fold_left_app. Qed.

Lemma grows_refl (w : world) : grows w w.
Proof.
  exists []. simpl. rewrite app_nil_r. repeat split.
  - constructor.
  - intros p H. now apply elem_of_nil in H.
  - now rewrite (left_id_L ∅ (∪)).
Qed.

Lemma grows_trans (w1 w2 w3 : world) : grows w1 w2 -> grows w2 w3 -> grows w1 w3.
Proof.
  intros (a & Ha & Hda & Hna & Hua & Hfa) (b & Hb & Hdb & Hnb & Hub & Hfb).
  exists (a ++ b)%list. rewrite appended_app, map_app.
  split; [rewrite Hb, Ha; now rewrite <- app_assoc|].
  split; [|split; [|split]].
  - apply NoDup_app. split; [exact Hda|]. split; [|exact Hdb].
    intros x Hx Hx'. apply list_elem_of_fmap in Hx' as (p & -> & Hp).
    apply (Hnb p Hp). rewrite Hua. apply elem_of_union_l.
    now apply elem_of_list_to_set.
  - intros p Hp. apply elem_of_app in Hp as [Hp|Hp]; [now apply Hna|].
    intros Hin. apply (Hnb p Hp). rewrite Hua. now apply elem_of_union_r.
  - rewrite Hub, Hua, list_to_set_app_L.
    rewrite (assoc_L (∪)). f_equal. apply (comm_L (∪)).
  - rewrite Hfb, Hfa. symmetry. apply file_after_app.
Qed.

Lemma grows_after (w : world) (acts : list action) :
  appended acts = [] -> grows w (after w acts).
Proof.
  intros H. exists acts. rewrite H. simpl. repeat split.
  - constructor.
  - intros p Hp. now apply elem_of_nil in Hp.
  - now rewrite (left_id_L ∅ (∪)).
Qed.

Lemma grows_enrolled (w : world) (p : profile_info) (acts : list action) :
  appended acts = [p] -> name p ∉ existing_users w -> grows w (enrolled w p acts).
Proof.
  intros H Hnew. exists acts. rewrite H. simpl. repeat split.
  - apply NoDup_singleton.
  - intros q Hq. apply list_elem_of_singleton in Hq as ->. exact Hnew.
  - now rewrite (right_id_L ∅ (∪)).
Qed.

Lemma growing_ret {A} (a : A) : growing (ret a).
Proof. intros w. apply grows_refl. Qed.

Lemma growing_raise {A} (e : exn) : growing (@raise A e).
Proof. intros w. apply grows_refl. Qed.

Lemma growing_out_of_fuel {A} : growing (@out_of_fuel A).
Proof. intros w. apply grows_refl. Qed.

Lemma growing_bind {A B} (m : M A) (k : A -> M B) :
  growing m -> (forall a : A, growing (k a)) -> growing (bind m k).
Proof.
  intros Hm Hk w. unfold bind. specialize (Hm w).
  destruct (m w) as [[a|e|] w1]; simpl in *; try exact Hm.
  eapply grows_trans; [exact Hm | apply Hk].
Qed.

Lemma growing_print (l : log_line) : growing (print l).
Proof. intros w. rewrite print_run. now apply grows_after. Qed.

Lemma growing_http_get {A} (api : list action -> response A) (r : request) :
  growing (http_get api r).
Proof. intros w. rewrite http_get_run. now apply grows_after. Qed.

Lemma growing_datetime_now (env : environment) : growing (datetime_now env).
Proof. intros w. rewrite datetime_now_run. now apply grows_after. Qed.

Lemma growing_time_sleep (d : Z) : growing (time_sleep d).
Proof.
  unfold time_sleep. destruct (d <? 0); [apply growing_raise|].
  intros w. rewrite perform_after. now apply grows_after.
Qed.

Lemma growing_check_rate_limit (env : environment) : growing (check_rate_limit env).
Proof.
  unfold check_rate_limit. apply growing_bind; [apply growing_http_get|].
  intros response. destruct (status_code response =? 200); [apply growing_ret|].
  apply growing_bind; [apply growing_print | intros _; apply growing_ret].
Qed.

Lemma growing_process_profile (env : environment) (profile : search_item) :
  growing (process_profile env profile).
Proof.
  intros w.
  destruct (process_profile_effect env profile w)
    as (rest & [[Hnone ->] | (p & Hname & Hnew & Hone & ->)]); simpl.
  - now apply grows_after.
  - apply grows_enrolled; [exact Hone | now rewrite Hname].
Qed.

Lemma growing_for_each {A} (xs : list A) (body : A -> M unit) :
  (forall x : A, growing (body x)) -> growing (for_each xs body).
Proof.
  intros H. induction xs as [|x xs IH]; simpl; [apply growing_ret|].
  apply growing_bind; [apply H | intros _; exact IH].
Qed.

Lemma growing_scrape_github (env : environment) (fuel : nat) (page : Z) :
  growing (scrape_github env fuel page).
Proof.
  induction fuel as [|fuel IH]; simpl; [apply growing_out_of_fuel|].
  apply growing_bind; [apply growing_print | intros _].
  apply growing_bind; [apply growing_check_rate_limit | intros limits].
  apply growing_bind.
  { destruct limits; [apply growing_ret | apply growing_raise]. }
  intros [search_remaining search_reset]. simpl fst; simpl snd.
  apply growing_bind.
  { destruct (search_remaining =? 0); [|apply growing_ret].
    apply growing_bind; [apply growing_datetime_now | intros now].
    apply growing_bind; [apply growing_print | intros _; apply growing_time_sleep]. }
  intros _. apply growing_bind; [apply growing_http_get | intros response].
  destruct (status_code response =? 403).
  { apply growing_bind; [apply growing_print | intros _].
    apply growing_bind; [apply growing_time_sleep | intros _; exact IH]. }
  destruct (status_code response =? 200).
  - apply growing_bind; [apply growing_print | intros _].
    destruct (Z.of_nat (length (json response)) =? 0).
    + apply growing_bind; [apply growing_print | intros _; apply growing_ret].
    + apply growing_bind; [|intros _; apply growing_ret].
      apply growing_for_each. intros x. apply growing_process_profile.
  - apply growing_bind; [apply growing_print | intros _; apply growing_ret].
Qed.

Lemma growing_crawl (env : environment) (fuel : nat) (page : Z) :
  growing (crawl env fuel page).
Proof.
  revert page. induction fuel as [|fuel IH]; intros page; simpl;
    [apply growing_out_of_fuel|].
  apply growing_bind; [apply growing_scrape_github | intros b].
  destruct (negb b); [apply growing_ret | apply IH].
Qed.

(** ** One page *)

Section Page.

Variable env : environment.
Variable fuel : nat.
Variable page : Z.
Variable w : world.

Let limits : response rate_limit_data := limits_seen env page w.
Let wait : Z := wait_seen env page w.

Lemma check_rate_limit_run (w1 : world) :
  check_rate_limit env w1 =
  let response := rate_limit_api env (history w1) in
  if status_code response =? 200
  then (Return (Some (remaining (json response), reset (json response))),
        after w1 [Http GetRateLimit])
  else (Return None, after w1 [Http GetRateLimit; Print LogRateLimitFailed]).
Proof.
  unfold check_rate_limit. step @http_get_run. cbv zeta.
  destruct (status_code (rate_limit_api env (history w1)) =? 200).
  - apply ret_run.
  - step print_run. rewrite after_after. apply ret_run.
Qed.

Lemma scrape_github_probe_failed :
  status_code limits <> 200 ->
  scrape_github env (S fuel) page w =
  (Raise TypeError,
   after w [Print (LogScrapingPage page); Http GetRateLimit;
            Print LogRateLimitFailed]).
Proof.
  intros H. apply Z.eqb_neq in H. simpl scrape_github. step print_run.
  erewrite bind_run by (rewrite check_rate_limit_run; cbv zeta;
    rewrite history_after; fold (limits_seen env page w); fold limits;
    rewrite H; reflexivity).
  cbv beta. rewrite after_after. reflexivity.
Qed.

Lemma scrape_github_quota_left :
  status_code limits = 200 ->
  remaining (json limits) <> 0 ->
  scrape_github env (S fuel) page w =
  bind (http_get (fun h => search_api env h page) (GetSearchUsers page))
       (handle_page env (scrape_github env fuel page) page)
       (after w [Print (LogScrapingPage page); Http GetRateLimit]).
Proof.
  intros H Hr. apply Z.eqb_eq in H. apply Z.eqb_neq in Hr.
  simpl scrape_github. step print_run.
  erewrite bind_run by (rewrite check_rate_limit_run; cbv zeta;
    rewrite history_after; fold (limits_seen env page w); fold limits;
    rewrite H; reflexivity).
  cbv beta. rewrite after_after. simpl app.
  erewrite bind_run by (apply ret_run). cbv beta. simpl fst. simpl snd.
  rewrite Hr. erewrite bind_run by (apply ret_run). reflexivity.
Qed.

Lemma scrape_github_negative_wait :
  status_code limits = 200 ->
  remaining (json limits) = 0 ->
  wait < 0 ->
  scrape_github env (S fuel) page w =
  (Raise ValueError,
   after w [Print (LogScrapingPage page); Http GetRateLimit; Now;
            Print (LogRateLimitReached (whole_seconds wait))]).
Proof.
  intros H Hr Hw. apply Z.eqb_eq in H. apply Z.ltb_lt in Hw.
  simpl scrape_github. step print_run.
  erewrite bind_run by (rewrite check_rate_limit_run; cbv zeta;
    rewrite history_after; fold (limits_seen env page w); fold limits;
    rewrite H; reflexivity).
  cbv beta. rewrite after_after. simpl app.
  erewrite bind_run by (apply ret_run). cbv beta. simpl fst. simpl snd.
  rewrite Hr. simpl Z.eqb. cbv iota.
  erewrite bind_raise; [reflexivity|].
  step datetime_now_run. rewrite history_after. simpl app.
  change (fromtimestamp env (reset (json limits)) - clock env _) with wait.
  step print_run. unfold time_sleep. rewrite Hw.
  rewrite !after_after. reflexivity.
Qed.

Lemma scrape_github_waited :
  status_code limits = 200 ->
  remaining (json limits) = 0 ->
  0 <= wait ->
  scrape_github env (S fuel) page w =
  bind (http_get (fun h => search_api env h page) (GetSearchUsers page))
       (handle_page env (scrape_github env fuel page) page)
       (after w [Print (LogScrapingPage page); Http GetRateLimit; Now;
                 Print (LogRateLimitReached (whole_seconds wait));
                 Sleep wait]).
Proof.
  intros H Hr Hw. apply Z.eqb_eq in H. apply Z.ltb_ge in Hw.
  simpl scrape_github. step print_run.
  erewrite bind_run by (rewrite check_rate_limit_run; cbv zeta;
    rewrite history_after; fold (limits_seen env page w); fold limits;
    rewrite H; reflexivity).
  cbv beta. rewrite after_after. simpl app.
  erewrite bind_run by (apply ret_run). cbv beta. simpl fst. simpl snd.
  rewrite Hr. simpl Z.eqb. cbv iota.
  erewrite bind_run; [reflexivity|].
  step datetime_now_run. rewrite history_after. simpl app.
  change (fromtimestamp env (reset (json limits)) - clock env _) with wait.
  step print_run. unfold time_sleep. rewrite Hw.
  rewrite perform_after, !after_after. reflexivity.
Qed.

Lemma scrape_github_gate_open :
  gate_open env page w ->
  scrape_github env (S fuel) page w =
  handle_page env (scrape_github env fuel page) page
    (page_response env page w)
    (after w (gate_actions env page w ++ [Http (GetSearchUsers page)])).
Proof.
  intros [H Hw]. unfold page_response, gate_actions.
  fold limits in H, Hw |- *. fold wait in Hw |- *.
  destruct (Z.eq_dec (remaining (json limits)) 0) as [Hr|Hr].
  - rewrite scrape_github_waited by auto. rewrite Hr. simpl Z.eqb. cbv iota.
    step @http_get_run. rewrite history_after, after_after. reflexivity.
  - rewrite scrape_github_quota_left by auto. apply Z.eqb_neq in Hr. rewrite Hr.
    step @http_get_run. rewrite history_after, after_after. reflexivity.
Qed.

End Page.

Lemma handle_page_error (env : environment) (retry : M bool) (page : Z)
    (response : response (list search_item)) (w : world) :
  status_code response <> 200 ->
  status_code response <> 403 ->
  handle_page env retry page response w =
  (Return true, after w [Print (LogError (status_code response))]).
Proof.
  intros H200 H403. apply Z.eqb_neq in H200, H403. unfold handle_page.
  rewrite H403, H200. step print_run. apply ret_run.
Qed.

Lemma handle_page_empty (env : environment) (retry : M bool) (page : Z)
    (response : response (list search_item)) (w : world) :
  status_code response = 200 ->
  json response = [] ->
  handle_page env retry page response w =
  (Return false,
   after w [Print (LogPageReturned page 0); Print (LogNoMoreUsers page)]).
Proof.
  intros H200 Hitems. unfold handle_page. rewrite H200, Hitems. simpl.
  step print_run. step print_run. rewrite after_after. apply ret_run.
Qed.

Lemma growing_handle_page (env : environment) (retry : M bool) (page : Z)
    (response : response (list search_item)) :
  growing retry -> growing (handle_page env retry page response).
Proof.
  intros Hretry. unfold handle_page.
  destruct (status_code response =? 403).
  { apply growing_bind; [apply growing_print | intros _].
    apply growing_bind; [apply growing_time_sleep | intros _; exact Hretry]. }
  destruct (status_code response =? 200).
  - apply growing_bind; [apply growing_print | intros _].
    destruct (Z.of_nat (length (json response)) =? 0).
    + apply growing_bind; [apply growing_print | intros _; apply growing_ret].
    + apply growing_bind; [|intros _; apply growing_ret].
      apply growing_for_each. intros x. apply growing_process_profile.
  - apply growing_bind; [apply growing_print | intros _; apply growing_ret].
Qed.

Lemma grows_history (w w' : world) :
  grows w w' -> exists rest : list action, history w' = (history w ++ rest)%list.
Proof. intros (acts & H & _). now exists acts. Qed.

(** Once the rate-limit check has passed, the search request is sent. *)
Lemma scrape_github_requests_page (env : environment) (fuel : nat) (page : Z)
    (w : world) :
  gate_open env page w ->
  exists rest : list action,
    history (snd (scrape_github env (S fuel) page w)) =
    (history w ++ gate_actions env page w
       ++ Http (GetSearchUsers page) :: rest)%list.
Proof.
  intros H. rewrite scrape_github_gate_open by exact H.
  destruct (grows_history _ _
    (growing_handle_page env (scrape_github env fuel page) page
       (page_response env page w) (growing_scrape_github env fuel page)
       (after w (gate_actions env page w ++ [Http (GetSearchUsers page)]))))
    as [rest Hrest].
  exists rest. rewrite Hrest, history_after, <- !app_assoc. reflexivity.
Qed.

Lemma crawl_unfold (env : environment) (fuel : nat) (page : Z) (w : world) :
  crawl env (S fuel) page w =
  match scrape_github env fuel page w with
  | (Return should_continue, w') =>
      if negb should_continue then (Return tt, w')
      else crawl env fuel (page + 1) w'
  | (Raise e, w') => (Raise e, w')
  | (OutOfFuel, w') => (OutOfFuel, w')
  end.
Proof.
  simpl crawl. unfold bind.
  destruct (scrape_github env fuel page w) as [[[|]| |] w']; reflexivity.
Qed.

Lemma crawl_continues (env : environment) (fuel : nat) (page : Z) (w w' : world) :
  scrape_github env fuel page w = (Return true, w') ->
  crawl env (S fuel) page w = crawl env fuel (page + 1) w'.
Proof. intros H. simpl crawl. now rewrite (bind_run _ _ _ _ _ H). Qed.

Lemma crawl_raises (env : environment) (fuel : nat) (page : Z) (w w' : world)
    (e : exn) :
  scrape_github env fuel page w = (Raise e, w') ->
  crawl env (S fuel) page w = (Raise e, w').
Proof. intros H. simpl crawl. now rewrite (bind_raise _ _ _ _ _ H). Qed.

(** ** Failed pages, failed probes and the wait for the reset *)

(** C1, as the code has it: when the search request of a page answers
    neither 200 nor 403, [scrape_github] reports the status, processes no
    candidate and answers "continue"; the main loop then scrapes the next
    page, whose search request is sent as soon as its rate-limit check
    passes.  The crawl does not stop there. *)
Theorem error_page_continues (env : environment) (fuel : nat) (page : Z)
    (w : world) :
  let status := status_code (page_response env page w) in
  let w' :=
    after w (gate_actions env page w
             ++ [Http (GetSearchUsers page); Print (LogError status)]) in
  gate_open env page w ->
  status <> 200 ->
  status <> 403 ->
  scrape_github env (S fuel) page w = (Return true, w') /\
  crawl env (S (S (S fuel))) page w = crawl env (S (S fuel)) (page + 1) w' /\
  (gate_open env (page + 1) w' ->
   exists rest : list action,
     history (snd (crawl env (S (S (S fuel))) page w)) =
     (history w' ++ gate_actions env (page + 1) w'
        ++ Http (GetSearchUsers (page + 1)) :: rest)%list).
Proof.
  intros status w' Hgate H200 H403.
  assert (Hpage : forall f, scrape_github env (S f) page w = (Return true, w')).
  { intros f. rewrite scrape_github_gate_open by exact Hgate.
    rewrite handle_page_error by assumption. rewrite after_after.
    unfold w'. now rewrite <- app_assoc. }
  split; [apply Hpage|]. split; [apply crawl_continues, Hpage|].
  intros Hnext. rewrite (crawl_continues _ _ _ _ _ (Hpage (S fuel))).
  destruct (scrape_github_requests_page env fuel (page + 1) w' Hnext) as [rest Hrest].
  rewrite crawl_unfold.
  destruct (scrape_github env (S fuel) (page + 1) w') as [[[|]| |] w2];
    cbn [snd] in Hrest; try (exists rest; exact Hrest).
  destruct (grows_history w2 (snd (crawl env (S fuel) (page + 1 + 1) w2)))
    as [more Hmore]; [apply growing_crawl|].
  exists (rest ++ more)%list. simpl negb. cbv iota.
  rewrite Hmore, Hrest, <- !app_assoc. reflexivity.
Qed.

Lemma error_page_continues_witness :
  scrape_github env_error_page 1 1 fresh_world =
  (Return true,
   after fresh_world
     [Print (LogScrapingPage 1); Http GetRateLimit; Http (GetSearchUsers 1);
      Print (LogError 500)]).
Proof.
  apply (error_page_continues env_error_page 0 1 fresh_world).
  - split; [reflexivity | vm_compute; lia].
  - vm_compute; lia.
  - vm_compute; lia.
Defined.

(** C1 as the claim states it fails: with page 1 answering 500, the crawl
    goes on to request page 2. *)
Lemma error_page_counterexample :
  crawl env_error_page 3 1 fresh_world =
  (Return tt,
   after fresh_world
     [Print (LogScrapingPage 1); Http GetRateLimit; Http (GetSearchUsers 1);
      Print (LogError 500);
      Print (LogScrapingPage 2); Http GetRateLimit; Http (GetSearchUsers 2);
      Print (LogPageReturned 2 0); Print (LogNoMoreUsers 2)]) /\
  ~ no_request_after_error (history (snd (crawl env_error_page 3 1 fresh_world))).
Proof.
  split; [reflexivity|]. intros H.
  specialize (H [Print (LogScrapingPage 1); Http GetRateLimit;
                 Http (GetSearchUsers 1)] 500
                [Print (LogScrapingPage 2); Http GetRateLimit;
                 Http (GetSearchUsers 2);
                 Print (LogPageReturned 2 0); Print (LogNoMoreUsers 2)]
                eq_refl).
  discriminate H.
Qed.

(** C3, at the failing input: when the rate-limit probe does not answer
    200, [check_rate_limit] reports it and returns nothing, the caller cannot
    unpack that, and the page and with it the whole crawl end in a
    [TypeError] before any search request. *)
Theorem probe_failure_is_fatal (env : environment) (fuel : nat) (page : Z)
    (w : world) :
  let w' :=
    after w [Print (LogScrapingPage page); Http GetRateLimit;
             Print LogRateLimitFailed] in
  status_code (limits_seen env page w) <> 200 ->
  scrape_github env (S fuel) page w = (Raise TypeError, w') /\
  crawl env (S (S fuel)) page w = (Raise TypeError, w').
Proof.
  intros w' H. split.
  - now apply scrape_github_probe_failed.
  - apply crawl_raises. now apply scrape_github_probe_failed.
Qed.

Lemma probe_failure_is_fatal_witness :
  crawl env_probe_down 2 1 fresh_world =
  (Raise TypeError,
   after fresh_world
     [Print (LogScrapingPage 1); Http GetRateLimit; Print LogRateLimitFailed]).
Proof.
  apply (probe_failure_is_fatal env_probe_down 0 1 fresh_world).
  vm_compute; lia.
Defined.

(** C4, with the failing input: with quota left the search request follows
    the probe at once; with the quota used up and a reset time not yet
    passed, the process sleeps for reset time minus clock reading, which is
    then the maximum of 0 and that difference, and sends the search request;
    with a reset time already passed, [time.sleep] is handed the negative
    difference and raises [ValueError]: there is no sleep, no search request,
    and the page ends in the error. *)
Theorem wait_for_reset (env : environment) (fuel : nat) (page : Z) (w : world) :
  let limits := limits_seen env page w in
  let wait := wait_seen env page w in
  status_code limits = 200 ->
  (remaining (json limits) <> 0 ->
   exists rest : list action,
     history (snd (scrape_github env (S fuel) page w)) =
     (history w ++ [Print (LogScrapingPage page); Http GetRateLimit;
                    Http (GetSearchUsers page)] ++ rest)%list) /\
  (remaining (json limits) = 0 -> 0 <= wait ->
   exists rest : list action,
     history (snd (scrape_github env (S fuel) page w)) =
     (history w ++ [Print (LogScrapingPage page); Http GetRateLimit; Now;
                    Print (LogRateLimitReached (whole_seconds wait));
                    Sleep (Z.max 0 wait);
                    Http (GetSearchUsers page)] ++ rest)%list) /\
  (remaining (json limits) = 0 -> wait < 0 ->
   scrape_github env (S fuel) page w =
   (Raise ValueError,
    after w [Print (LogScrapingPage page); Http GetRateLimit; Now;
             Print (LogRateLimitReached (whole_seconds wait))])).
Proof.
  intros limits wait H. split; [|split].
  - intros Hr.
    destruct (scrape_github_requests_page env fuel page w) as [rest Hrest].
    { split; [exact H | intros Hz; contradiction]. }
    exists rest. rewrite Hrest. unfold gate_actions. fold limits.
    apply Z.eqb_neq in Hr. rewrite Hr. reflexivity.
  - intros Hr Hw.
    destruct (scrape_github_requests_page env fuel page w) as [rest Hrest].
    { split; [exact H | intros _; exact Hw]. }
    exists rest. rewrite Hrest. unfold gate_actions. fold limits. fold wait.
    rewrite Hr, Z.max_r by exact Hw. reflexivity.
  - intros Hr Hw. now apply scrape_github_negative_wait.
Qed.

Lemma wait_for_reset_witness :
  scrape_github env_reset_passed 1 1 fresh_world =
  (Raise ValueError,
   after fresh_world
     [Print (LogScrapingPage 1); Http GetRateLimit; Now;
      Print (LogRateLimitReached (-1))]) /\
  (exists rest : list action,
     history (snd (scrape_github env_reset_ahead 1 1 fresh_world)) =
     ([Print (LogScrapingPage 1); Http GetRateLimit; Now;
       Print (LogRateLimitReached 7); Sleep (7 * microseconds_per_second);
       Http (GetSearchUsers 1)] ++ rest)%list).
Proof.
  split.
  - apply (wait_for_reset env_reset_passed 0 1 fresh_world); reflexivity.
  - apply (wait_for_reset env_reset_ahead 0 1 fresh_world);
      [reflexivity | reflexivity | apply Z.leb_le; reflexivity].
Defined.

(** ** Reading back what the writer wrote *)

Module RoundTrip.

Import Csv CsvRead.

(** A written field as the reader's file object delivers it. *)
Definition delivered (f : string) : string :=
  if has_special f then quoted (universal_newlines f) else f.

(** A written record of at least two fields, as delivered: the fields
    between delimiters, then the newline. *)
Definition delivered_row (fields : list string) (rest : string) : string :=
  join (map delivered fields) +:+ String LF rest.

Lemma special_false (c : ascii) :
  special c = false ->
  Ascii.eqb c delimiter = false /\ Ascii.eqb c quotechar = false /\
  Ascii.eqb c CR = false /\ Ascii.eqb c LF = false.
Proof.
  unfold special. intros H.
  destruct (Ascii.eqb c delimiter), (Ascii.eqb c quotechar),
    (Ascii.eqb c CR), (Ascii.eqb c LF); try discriminate H; auto.
Qed.

Lemma translate_plain (s t : string) :
  has_special s = false ->
  translate_newlines false (s +:+ t) = s +:+ translate_newlines false t.
Proof.
  induction s as [|c s IH]; simpl; [reflexivity|].
  intros H. apply orb_false_iff in H as [Hc Hs].
  apply special_false in Hc as (_ & _ & Hcr & Hlf).
  rewrite Hcr, Hlf. now rewrite IH.
Qed.

Lemma universal_newlines_plain (s : string) :
  has_special s = false -> universal_newlines s = s.
Proof.
  intros H. unfold universal_newlines.
  rewrite <- (append_nil_r s) at 1. rewrite translate_plain by exact H.
  simpl. apply append_nil_r.
Qed.

Lemma translate_quoted_body (b : bool) (f t : string) :
  translate_newlines b (double_quotes f +:+ String quotechar t) =
  double_quotes (translate_newlines b f)
  +:+ String quotechar (translate_newlines false t).
Proof.
  revert b. induction f as [|c f IH]; intros b.
  - reflexivity.
  - simpl double_quotes. destruct (Ascii.eqb c quotechar) eqn:Eq.
    + apply Ascii.eqb_eq in Eq. subst c. simpl. now rewrite IH.
    + simpl. destruct (Ascii.eqb c CR) eqn:Ecr.
      * simpl. now rewrite IH.
      * destruct (Ascii.eqb c LF) eqn:Elf.
        -- destruct b; simpl; now rewrite IH.
        -- simpl. rewrite Eq. simpl. now rewrite IH.
Qed.

Lemma translate_quoted (f t : string) :
  translate_newlines false (quoted f +:+ t) =
  quoted (universal_newlines f) +:+ translate_newlines false t.
Proof.
  unfold quoted, universal_newlines. simpl.
  rewrite !append_assoc. simpl. now rewrite translate_quoted_body.
Qed.

Lemma translate_field (f t : string) :
  translate_newlines false (write_field f +:+ t) =
  delivered f +:+ translate_newlines false t.
Proof.
  unfold write_field, delivered. destruct (has_special f) eqn:E.
  - apply translate_quoted.
  - now apply translate_plain.
Qed.

Lemma join_cons (f g : string) (fields : list string) :
  join (f :: g :: fields) = f +:+ String delimiter (join (g :: fields)).
Proof. reflexivity. Qed.

Lemma translate_join (fields : list string) (t : string) :
  fields <> [] ->
  translate_newlines false
    (join (map write_field fields) +:+ lineterminator +:+ t) =
  delivered_row fields (translate_newlines false t).
Proof.
  unfold delivered_row. induction fields as [|f [|g fields] IH]; intros Hne.
  - contradiction.
  - simpl map. simpl join. rewrite translate_field. reflexivity.
  - simpl map. rewrite !join_cons. rewrite !append_assoc.
    rewrite translate_field. simpl. f_equal. f_equal.
    apply IH. discriminate.
Qed.

Lemma writerow_fields (f g : string) (fields : list string) :
  writerow (f :: g :: fields) =
  join (map write_field (f :: g :: fields)) +:+ lineterminator.
Proof.
  unfold writerow. simpl map. rewrite join_cons.
  destruct (write_field f); reflexivity.
Qed.

(** A record of at least two fields, written and then delivered. *)
Lemma translate_writerow (f g : string) (fields : list string) (t : string) :
  translate_newlines false (writerow (f :: g :: fields) +:+ t) =
  delivered_row (f :: g :: fields) (translate_newlines false t).
Proof.
  rewrite writerow_fields, append_assoc. apply translate_join. discriminate.
Qed.

(** The reader run on a delivered text, from the parser [p]. *)
Definition run (p : parser) (t : string) : option (list (list string)) :=
  read_records p (readlines t).

Lemma append_cons_not_empty (a : string) (c : ascii) (t : string) :
  a +:+ String c t <> EmptyString.
Proof. destruct a; discriminate. Qed.

Lemma run_char (p : parser) (c : ascii) (t : string) :
  Ascii.eqb c LF = false ->
  t <> EmptyString ->
  run p (String c t) =
  match parse_process_char p (Some c) with
  | Some p' => run p' t
  | None => None
  end.
Proof.
  intros Hc Ht. destruct t as [|c' t]; [contradiction|].
  unfold run. change (readlines (String c (String c' t)))
    with (cons_char c (readlines (String c' t))).
  assert (exists l ls, readlines (String c' t) = l :: ls) as (l & ls & E).
  { simpl. unfold cons_char.
    destruct (Ascii.eqb c' LF); [eauto|]. destruct (readlines t); eauto. }
  rewrite E. unfold cons_char. rewrite Hc. simpl.
  destruct (parse_process_char p (Some c)); reflexivity.
Qed.

Lemma run_newline (p : parser) (t : string) :
  run p (String LF t) =
  match parse_process_char p (Some LF) with
  | None => None
  | Some p1 =>
      match parse_process_char p1 None with
      | None => None
      | Some p2 =>
          if parser_state_eqb (state p2) START_RECORD
          then option_map (cons (fields p2)) (run parse_reset t)
          else run p2 t
      end
  end.
Proof. unfold run. simpl. destruct (parse_process_char p (Some LF)); reflexivity. Qed.

(** The parser is about to read a field. *)
Definition at_field_start (s : parser_state) : Prop :=
  s = START_RECORD \/ s = START_FIELD.

Lemma run_in_field (s : string) (fs : list string) (f t : string) :
  has_special s = false ->
  t <> EmptyString ->
  run (mkParser IN_FIELD fs f) (s +:+ t) = run (mkParser IN_FIELD fs (f +:+ s)) t.
Proof.
  revert f. induction s as [|c s IH]; intros f Hs Ht; simpl.
  - now rewrite append_nil_r.
  - simpl in Hs. apply orb_false_iff in Hs as [Hc Hs].
    apply special_false in Hc as (Hd & Hq & Hcr & Hlf).
    rewrite run_char; [|exact Hlf|destruct s; [exact Ht | discriminate]].
    unfold parse_process_char, is_newline. simpl state. rewrite Hlf, Hcr, Hd.
    unfold parse_add_char. simpl. rewrite IH by assumption.
    now rewrite append_assoc.
Qed.

Lemma run_plain_field (s0 : parser_state) (s : string) (fs : list string)
    (t : string) :
  at_field_start s0 ->
  has_special s = false ->
  t <> EmptyString ->
  run (mkParser s0 fs EmptyString) (s +:+ t) =
  match s with
  | EmptyString => run (mkParser s0 fs EmptyString) t
  | String _ _ => run (mkParser IN_FIELD fs s) t
  end.
Proof.
  intros Hs0 Hs Ht. destruct s as [|c s]; [reflexivity|].
  simpl in Hs. apply orb_false_iff in Hs as [Hc Hs].
  apply special_false in Hc as (Hd & Hq & Hcr & Hlf). simpl.
  rewrite run_char; [|exact Hlf|destruct s; [exact Ht | discriminate]].
  assert (E : parse_process_char (mkParser s0 fs EmptyString) (Some c) =
              Some (mkParser IN_FIELD fs (String c EmptyString))).
  { destruct Hs0 as [-> | ->]; unfold parse_process_char, start_field, is_newline;
      simpl; rewrite Hlf, Hcr, Hq, Hd; reflexivity. }
  rewrite E. now rewrite run_in_field.
Qed.

Lemma run_quoted_body (g : string) (fs : list string) (f t : string) :
  t <> EmptyString ->
  run (mkParser IN_QUOTED_FIELD fs f) (double_quotes g +:+ String quotechar t) =
  run (mkParser QUOTE_IN_QUOTED_FIELD fs (f +:+ g)) t.
Proof.
  intros Ht. revert f. induction g as [|c g IH]; intros f.
  - simpl. rewrite run_char by (reflexivity || exact Ht).
    now rewrite append_nil_r.
  - simpl double_quotes. destruct (Ascii.eqb c quotechar) eqn:Eq.
    + apply Ascii.eqb_eq in Eq. subst c. simpl.
      rewrite run_char by (reflexivity || discriminate).
      simpl. rewrite run_char by (reflexivity || apply append_cons_not_empty).
      simpl. unfold parse_add_char, set_state. simpl. rewrite IH.
      now rewrite append_assoc.
    + simpl. destruct (Ascii.eqb c LF) eqn:Elf.
      * apply Ascii.eqb_eq in Elf. subst c. rewrite run_newline. simpl.
        unfold parse_add_char. simpl. rewrite IH. now rewrite append_assoc.
      * rewrite run_char by (exact Elf || apply append_cons_not_empty).
        unfold parse_process_char. simpl state. rewrite Eq.
        unfold parse_add_char. simpl. rewrite IH. now rewrite append_assoc.
Qed.

Lemma run_field_delimiter (s0 : parser_state) (f : string) (fs : list string)
    (t : string) :
  at_field_start s0 ->
  t <> EmptyString ->
  run (mkParser s0 fs EmptyString) (delivered f +:+ String delimiter t) =
  run (mkParser START_FIELD (fs ++ [universal_newlines f])%list EmptyString) t.
Proof.
  intros Hs0 Ht. unfold delivered. destruct (has_special f) eqn:E.
  - unfold quoted. simpl. rewrite append_assoc. simpl.
    rewrite run_char by (reflexivity || apply append_cons_not_empty).
    assert (Eo : parse_process_char (mkParser s0 fs EmptyString) (Some quotechar) =
                 Some (mkParser IN_QUOTED_FIELD fs EmptyString))
      by (destruct Hs0 as [-> | ->]; reflexivity).
    rewrite Eo, run_quoted_body by discriminate.
    rewrite run_char by (reflexivity || exact Ht). reflexivity.
  - rewrite universal_newlines_plain by exact E.
    rewrite run_plain_field by (assumption || discriminate).
    destruct f as [|c f].
    + rewrite run_char by (reflexivity || exact Ht).
      destruct Hs0 as [-> | ->]; reflexivity.
    + rewrite run_char by (reflexivity || exact Ht). reflexivity.
Qed.

Lemma run_last_field (f : string) (fs : list string) (t : string) :
  run (mkParser START_FIELD fs EmptyString) (delivered f +:+ String LF t) =
  option_map (cons (fs ++ [universal_newlines f])%list) (run parse_reset t).
Proof.
  unfold delivered. destruct (has_special f) eqn:E.
  - unfold quoted. simpl. rewrite append_assoc. simpl.
    rewrite run_char by (reflexivity || apply append_cons_not_empty).
    simpl. change (set_state (mkParser START_FIELD fs EmptyString) IN_QUOTED_FIELD)
      with (mkParser IN_QUOTED_FIELD fs EmptyString).
    rewrite run_quoted_body by discriminate.
    rewrite run_newline. reflexivity.
  - rewrite universal_newlines_plain by exact E.
    rewrite run_plain_field by (right; reflexivity) || assumption || discriminate.
    destruct f as [|c f]; rewrite run_newline; reflexivity.
Qed.

Lemma run_fields (fields fs : list string) (t : string) :
  fields <> [] ->
  run (mkParser START_FIELD fs EmptyString)
      (join (map delivered fields) +:+ String LF t) =
  option_map (cons (fs ++ map universal_newlines fields)%list) (run parse_reset t).
Proof.
  revert fs. induction fields as [|f [|g fields] IH]; intros fs Hne.
  - contradiction.
  - simpl. apply run_last_field.
  - simpl map. rewrite join_cons, append_assoc, append_cons.
    rewrite run_field_delimiter;
      [|right; reflexivity|apply append_cons_not_empty].
    change (delivered g :: map delivered fields)
      with (map delivered (g :: fields)).
    rewrite (IH (fs ++ [universal_newlines f])%list) by discriminate.
    simpl map. now rewrite <- app_assoc.
Qed.

(** One delivered record of at least two fields is read as one record. *)
Lemma run_row (f g : string) (fields : list string) (t : string) :
  run parse_reset (delivered_row (f :: g :: fields) t) =
  option_map (cons (map universal_newlines (f :: g :: fields)))
             (run parse_reset t).
Proof.
  unfold delivered_row. simpl map. rewrite join_cons, append_assoc, append_cons.
  unfold parse_reset.
  rewrite run_field_delimiter; [|left; reflexivity|apply append_cons_not_empty].
  apply (run_fields (g :: fields)). discriminate.
Qed.

(** Records of two fields or more, written one after the other, are read
    back one by one, each cell as it is read back. *)
Lemma reader_written_rows (rows : list (list string)) :
  Forall wide rows ->
  reader (written_rows rows) = Some (map (map read_back) rows).
Proof.
  change (reader (written_rows rows))
    with (run parse_reset (translate_newlines false (written_rows rows))).
  induction 1 as [|row rows Hrow _ IH]; [reflexivity|].
  destruct row as [|f [|g fields]]; try (unfold wide in Hrow; simpl in Hrow; lia).
  change (written_rows ((f :: g :: fields) :: rows))
    with (writerow (f :: g :: fields) +:+ written_rows rows).
  rewrite translate_writerow, run_row, IH. reflexivity.
Qed.

End RoundTrip.

(** ** The ledger file *)

Lemma file_after_nonempty (c : ascii) (content : string)
    (profiles : list profile_info) :
  file_after (Some (String c content)) profiles =
  Some (String c content +:+ written_rows (map cells profiles)).
Proof.
  revert content. induction profiles as [|p profiles IH]; intros content.
  - simpl. now rewrite append_nil_r.
  - change (file_after (Some (String c content)) (p :: profiles))
      with (file_after (Some (String c (content +:+ data_row p))) profiles).
    rewrite IH. simpl map. rewrite <- append_cons, append_assoc. reflexivity.
Qed.

Lemma ledger_file_cons (p : profile_info) (profiles : list profile_info) :
  ledger_file (p :: profiles) =
  Some (written_rows (fieldnames :: map cells (p :: profiles))).
Proof.
  unfold ledger_file.
  change (file_after None (p :: profiles))
    with (file_after (Some (header_row +:+ data_row p)) profiles).
  change (header_row +:+ data_row p)
    with (String "n" (String.substring 1 (String.length header_row) header_row
                      +:+ data_row p)).
  rewrite file_after_nonempty. reflexivity.
Qed.

Lemma cells_wide (p : profile_info) : wide (cells p).
Proof. unfold wide, cells. simpl. lia. Qed.

(** The [name] column of a ledger file holds the names written, as they
    are read back. *)
Lemma ledger_column (profiles : list profile_info) :
  CsvRead.dict_column "name" (fieldnames :: map (map read_back) (map cells profiles)) =
  Some (map (fun p => Some (read_back (name p))) profiles).
Proof.
  unfold CsvRead.dict_column.
  induction profiles as [|p profiles IH]; [reflexivity|].
  simpl map. rewrite filter_cons_True by discriminate.
  change (mapM ?f (?x :: ?l)) with (x' ← f x; l' ← mapM f l; Some (x' :: l')).
  rewrite IH. reflexivity.
Qed.

Lemma ledger_records (profiles : list profile_info) (content : string) :
  profiles <> [] ->
  ledger_file profiles = Some content ->
  CsvRead.reader content =
  Some (fieldnames :: map (map read_back) (map cells profiles)).
Proof.
  intros Hne H. destruct profiles as [|p profiles]; [contradiction|].
  rewrite ledger_file_cons in H. apply (inj Some) in H. rewrite <- H.
  rewrite RoundTrip.reader_written_rows.
  - reflexivity.
  - constructor; [unfold wide; simpl; lia|].
    apply Forall_fmap, Forall_forall. intros q _. apply cells_wide.
Qed.

Lemma strings_of_some {A} (f : A -> string) (l : list A) :
  strings_of (map (fun x => Some (f x)) l) = list_to_set (map f l).
Proof.
  unfold strings_of. f_equal. induction l as [|x l IH]; [reflexivity|].
  simpl. f_equal. exact IH.
Qed.

(** Started on a ledger file, [load_existing_users] finds the names that
    were written, as they are read back. *)
Lemma load_existing_users_ledger (profiles : list profile_info) (w : world) :
  champions_csv w = ledger_file profiles ->
  exists w1 : world,
    load_existing_users w =
    (Return (list_to_set (map (fun p => read_back (name p)) profiles)), w1) /\
    champions_csv w1 = champions_csv w /\
    exists acts : list action, w1 = after w acts /\ appended acts = [].
Proof.
  intros H. destruct profiles as [|p profiles].
  - exists (after w [Print LogCsvNotFound]). split; [|split].
    + unfold load_existing_users, bind. simpl. rewrite H. reflexivity.
    + reflexivity.
    + now exists [Print LogCsvNotFound].
  - exists w. split; [|split].
    + unfold load_existing_users, bind. simpl. rewrite H.
      destruct (ledger_file (p :: profiles)) as [content|] eqn:E;
        [|rewrite ledger_file_cons in E; discriminate].
      rewrite (ledger_records (p :: profiles) content)
        by (discriminate || exact E).
      rewrite ledger_column, strings_of_some. reflexivity.
    + reflexivity.
    + exists []. now rewrite after_nil.
Qed.

Lemma main_unfold (env : environment) (fuel : nat) (w w1 : world)
    (loaded : gset string) :
  load_existing_users w = (Return loaded, w1) ->
  main env fuel w =
  crawl env fuel 1
    {| existing_users := loaded;
       champions_csv := champions_csv w1;
       history := history w1 |}.
Proof. intros H. unfold main. rewrite (bind_run _ _ _ _ _ H). reflexivity. Qed.

Lemma read_back_plain (s : string) :
  no_carriage_return s = true -> read_back s = s.
Proof.
  unfold read_back, CsvRead.universal_newlines.
  induction s as [|c s IH]; simpl; [reflexivity|].
  intros H. apply andb_true_iff in H as [Hc Hs]. apply negb_true_iff in Hc.
  rewrite Hc, (IH Hs). destruct (Ascii.eqb c Csv.LF) eqn:E; [|reflexivity].
  apply Ascii.eqb_eq in E. now subst c.
Qed.

(** C2: a candidate whose name is in the set of known names is skipped
    and nothing is appended for it; in every crawl the appended records
    carry names that were not known at its start and that are pairwise
    different; and a process started on the ledger file left by earlier
    appends loads the names in that file as they are read back (unchanged
    for every name without a carriage return), appends only records with
    other names, pairwise different, and leaves the file that appending
    these new records to the old file gives. *)
Theorem dedup_across_restarts (env : environment) (fuel : nat)
    (profiles : list profile_info) (w : world) :
  champions_csv w = ledger_file profiles ->
  (exists acts : list action,
     let w' := snd (main env fuel w) in
     let new := appended acts in
     history w' = (history w ++ acts)%list /\
     NoDup (map name new) /\
     (forall p : profile_info, p ∈ new -> name p ∉ names_read profiles) /\
     champions_csv w' = ledger_file (profiles ++ new) /\
     existing_users w' = list_to_set (names_read profiles ++ map name new)) /\
  (forall p : profile_info,
      no_carriage_return (name p) = true -> read_back (name p) = name p) /\
  (forall (profile : search_item) (w0 : world),
     item_login profile ∈ existing_users w0 ->
     exists acts : list action,
       process_profile env profile w0 = (Return tt, after w0 acts) /\
       appended acts = []) /\
  (forall (page : Z) (w0 : world), grows w0 (snd (crawl env fuel page w0))).
Proof.
  intros Hfile. split; [|split; [|split]].
  - destruct (load_existing_users_ledger profiles w Hfile)
      as (w1 & Hload & Hcsv & acts0 & -> & Hnone).
    fold (names_read profiles) in Hload.
    rewrite (main_unfold env fuel _ _ _ Hload).
    set (w2 := {| existing_users := list_to_set (names_read profiles);
                  champions_csv := champions_csv (after w acts0);
                  history := history (after w acts0) |}).
    destruct (growing_crawl env fuel 1 w2) as (acts & Hh & Hd & Hn & Hu & Hf).
    change (history w2) with (history w ++ acts0)%list in Hh.
    change (existing_users w2)
      with (list_to_set (names_read profiles) : gset string) in Hn, Hu.
    change (champions_csv w2) with (champions_csv w) in Hf.
    exists (acts0 ++ acts)%list. cbv zeta.
    rewrite appended_app, Hnone. simpl app.
    split; [rewrite Hh; now rewrite <- app_assoc|].
    split; [exact Hd|]. split; [|split].
    + intros p Hp Hin. apply (Hn p Hp). now apply elem_of_list_to_set.
    + rewrite Hf, Hfile. unfold ledger_file.
      symmetry. apply file_after_app.
    + rewrite Hu, list_to_set_app_L. apply (comm_L (∪)).
  - intros p. apply read_back_plain.
  - intros profile w0 Hin.
    destruct (process_profile_effect env profile w0)
      as (rest & [[Hnone H] | (p & _ & Hnew & _)]); [|contradiction].
    exists (Http (GetUser (item_login profile)) :: rest). now split.
  - intros page w0. apply growing_crawl.
Qed.

Lemma dedup_across_restarts_witness :
  exists acts : list action,
    history (snd (main (env_with 5) 3 restart_world)) =
    (history restart_world ++ acts)%list /\
    NoDup (map name (appended acts)) /\
    (forall p : profile_info, p ∈ appended acts -> name p ∉ ["ada"]) /\
    champions_csv (snd (main (env_with 5) 3 restart_world)) =
    ledger_file ([champion "ada" director 5] ++ appended acts) /\
    existing_users (snd (main (env_with 5) 3 restart_world)) =
    list_to_set (["ada"] ++ map name (appended acts)).
Proof.
  apply (dedup_across_restarts (env_with 5) 3 [champion "ada" director 5]
           restart_world).
  reflexivity.
Defined.

(** ** The sink *)

(** C9: [append_to_csv] always returns; on a missing or empty file it
    leaves the header row followed by the row of the record, on a non-empty
    file the old content followed by the row of the record and nothing
    else, so that the old content is in both cases an unchanged prefix; the
    header row is the line of the seven column names; read back, the new
    file of the first case holds the header record and one data record,
    the appended text of the second case is one record, and a ledger file
    of some records becomes the ledger file of these records and the new
    one. *)
Theorem append_only_sink (profile : profile_info) (w : world) :
  let old := default EmptyString (champions_csv w) in
  let w' := snd (append_to_csv profile w) in
  fst (append_to_csv profile w) = Return tt /\
  (old = EmptyString ->
   champions_csv w' = Some (header_row +:+ data_row profile)) /\
  (old <> EmptyString ->
   champions_csv w' = Some (old +:+ data_row profile)) /\
  (exists added : string, champions_csv w' = Some (old +:+ added)) /\
  existing_users w' = existing_users w /\
  header_row =
  "name,location,followers,repos,url,recent_commits,role" +:+ Csv.lineterminator /\
  CsvRead.reader (header_row +:+ data_row profile) =
  Some [fieldnames; map read_back (cells profile)] /\
  CsvRead.reader (data_row profile) = Some [map read_back (cells profile)] /\
  (forall profiles : list profile_info,
      champions_csv w = ledger_file profiles ->
      champions_csv w' = ledger_file (profiles ++ [profile]) /\
      exists content : string,
        champions_csv w' = Some content /\
        CsvRead.reader content =
        Some (fieldnames
              :: map (map read_back) (map cells (profiles ++ [profile])))).
Proof.
  intros old w'. unfold w'. rewrite append_to_csv_run. simpl fst. simpl snd.
  simpl champions_csv. simpl existing_users. fold old.
  assert (Hrow : forall rows,
             Forall wide rows ->
             CsvRead.reader (written_rows rows) = Some (map (map read_back) rows))
    by exact RoundTrip.reader_written_rows.
  split; [reflexivity|]. split; [|split; [|split; [|split; [|split; [|split; [|split]]]]]].
  - intros H. unfold old in H. unfold written.
    destruct (champions_csv w) as [[|c s]|]; simpl in H; try discriminate;
      reflexivity.
  - intros H. unfold old in H |- *. unfold written.
    destruct (champions_csv w) as [[|c s]|]; simpl in H |- *;
      try contradiction; reflexivity.
  - now exists (written (champions_csv w) profile).
  - reflexivity.
  - reflexivity.
  - rewrite <- (append_nil_r (data_row profile)).
    change (header_row +:+ data_row profile +:+ EmptyString)
      with (written_rows [fieldnames; cells profile]).
    rewrite Hrow; [reflexivity|].
    constructor; [unfold wide; simpl; lia|].
    constructor; [apply cells_wide | constructor].
  - change (data_row profile) with (Csv.writerow (cells profile)).
    rewrite <- (append_nil_r (Csv.writerow (cells profile))).
    change (Csv.writerow (cells profile) +:+ EmptyString)
      with (written_rows [cells profile]).
    rewrite Hrow; [reflexivity|].
    constructor; [apply cells_wide | constructor].
  - intros profiles Hfile.
    assert (Hnew : Some (old +:+ written (champions_csv w) profile) =
                   ledger_file (profiles ++ [profile])).
    { unfold ledger_file. rewrite file_after_app. fold (ledger_file profiles).
      rewrite <- Hfile. reflexivity. }
    split; [exact Hnew|].
    exists (old +:+ written (champions_csv w) profile). split; [reflexivity|].
    apply ledger_records; [|now symmetry].
    destruct profiles; discriminate.
Qed.

(** * More of the code: what else the functions of [main.py] guarantee *)

(** ** Notions for the statements that follow *)

(** The labels that [extract_senior_title] can answer. *)
Definition role_labels : list string :=
  ["Staff engineer"; "Principal engineer"; "Senior manager"; "Director";
   "Engineer"; "Startup/VC involvement"].

(** The labels left when "senior director" occurs in the biography. *)
Definition labels_before_senior_director : list string :=
  ["Staff engineer"; "Principal engineer"; "Senior manager"; "Director"].

(** What the computation [m] does when it is run from [w]: the actions it
    adds to the history. *)
Definition performed {A} (m : M A) (w : world) : list action :=
  drop (length (history w)) (history (snd (m w))).

(** ** Labels of roles *)

(** A byte of an ASCII character. *)
Definition is_ascii (c : ascii) : bool := (N_of_ascii c <? 128)%N.

(** A text of ASCII characters only. *)
Fixpoint ascii_text (s : string) : bool :=
  match s with
  | EmptyString => true
  | String c s' => is_ascii c && ascii_text s'
  end.

(** A text without any ASCII character. *)
Fixpoint no_ascii (s : string) : bool :=
  match s with
  | EmptyString => true
  | String c s' => negb (is_ascii c) && no_ascii s'
  end.

Lemma lower_char_not_ascii (c : ascii) :
  is_ascii c = false -> PyStr.lower_char c = c.
Proof.
  unfold is_ascii, PyStr.lower_char, PyStr.is_ascii_upper. intros H.
  apply N.ltb_ge in H.
  destruct (N.leb_spec (N_of_ascii c) 90) as [Hle|_]; [lia|].
  now rewrite andb_false_r.
Qed.

Lemma ascii_starts_no_sequence (a : ascii) :
  is_ascii a = true ->
  Ascii.eqb a "226" = false /\ Ascii.eqb a "196" = false.
Proof.
  intros H. split.
  - destruct (Ascii.eqb_spec a "226") as [->|]; [discriminate | reflexivity].
  - destruct (Ascii.eqb_spec a "196") as [->|]; [discriminate | reflexivity].
Qed.

(** An ASCII character is lower-cased on its own. *)
Lemma lower_ascii_head (a : ascii) (x : string) :
  is_ascii a = true ->
  PyStr.lower (String a x) = String (PyStr.lower_char a) (PyStr.lower x).
Proof.
  intros H. destruct (ascii_starts_no_sequence a H) as [Hk Hd].
  destruct x as [|b [|c x]]; cbn [PyStr.lower];
    unfold PyStr.is_dotted_capital_i, PyStr.is_kelvin_sign;
    rewrite ?Hk, ?Hd; reflexivity.
Qed.

Lemma contains_empty (hay : string) : PyStr.contains "" hay = true.
Proof. now destruct hay. Qed.

Lemma contains_cons (k : string) (c : ascii) (hay : string) :
  PyStr.contains k hay = true -> PyStr.contains k (String c hay) = true.
Proof. intros H. cbn [PyStr.contains]. rewrite H. apply orb_true_r. Qed.

Lemma contains_app_l (k pre hay : string) :
  PyStr.contains k hay = true -> PyStr.contains k (pre +:+ hay) = true.
Proof.
  intros H. induction pre as [|c pre IH]; [exact H|].
  cbn [String.append]. now apply contains_cons.
Qed.

Lemma startswith_not_ascii (k : string) (c : ascii) (hay : string) :
  ascii_text k = true -> is_ascii c = false ->
  PyStr.startswith k (String c hay) = true -> k = "".
Proof.
  intros Hk Hc H. destruct k as [|a k]; [reflexivity|].
  cbn in H, Hk. apply andb_true_iff in H as [H _], Hk as [Hk _].
  apply Ascii.eqb_eq in H. subst a. congruence.
Qed.

(** An ASCII keyword does not start at a byte beyond ASCII. *)
Lemma contains_drop_head (k : string) (c : ascii) (hay : string) :
  ascii_text k = true -> is_ascii c = false ->
  PyStr.contains k (String c hay) = true -> PyStr.contains k hay = true.
Proof.
  intros Hk Hc H. cbn [PyStr.contains] in H.
  apply orb_true_iff in H as [H | H]; [|exact H].
  rewrite (startswith_not_ascii k c hay Hk Hc H). apply contains_empty.
Qed.

Lemma startswith_tail (k m b b' : string) :
  ascii_text k = true -> no_ascii b = true ->
  PyStr.startswith k (m +:+ b) = true -> PyStr.startswith k (m +:+ b') = true.
Proof.
  intros Hk Hb. revert k Hk. induction m as [|c m IH]; intros k Hk H.
  - cbn [String.append] in *. destruct k as [|a k]; [reflexivity|].
    destruct b as [|c b]; [discriminate|].
    cbn in Hb. apply andb_true_iff in Hb as [Hc _].
    apply negb_true_iff in Hc.
    now rewrite (startswith_not_ascii _ c b Hk Hc H) in Hk |- *.
  - destruct k as [|a k]; [reflexivity|].
    cbn [String.append PyStr.startswith] in *.
    apply andb_true_iff in H as [-> H]. cbn in Hk.
    apply andb_true_iff in Hk as [_ Hk]. cbn. now apply IH.
Qed.

Lemma contains_no_ascii (k b : string) :
  ascii_text k = true -> no_ascii b = true ->
  PyStr.contains k b = true -> k = "".
Proof.
  intros Hk. induction b as [|c b IH]; intros Hb H.
  - destruct k; [reflexivity | discriminate].
  - cbn in Hb. apply andb_true_iff in Hb as [Hc Hb].
    apply negb_true_iff in Hc. cbn [PyStr.contains] in H.
    apply orb_true_iff in H as [H | H]; [|now apply IH].
    exact (startswith_not_ascii k c b Hk Hc H).
Qed.

(** An ASCII keyword found before a tail without ASCII is found whatever
    the tail. *)
Lemma contains_tail (k m b b' : string) :
  ascii_text k = true -> no_ascii b = true ->
  PyStr.contains k (m +:+ b) = true -> PyStr.contains k (m +:+ b') = true.
Proof.
  intros Hk Hb. induction m as [|c m IH]; intros H.
  - cbn [String.append] in *.
    rewrite (contains_no_ascii k b Hk Hb H). apply contains_empty.
  - cbn [String.append PyStr.contains] in *.
    apply orb_true_iff in H as [H | H].
    + change (String c (m +:+ b)) with (String c m +:+ b) in H.
      change (String c (m +:+ b')) with (String c m +:+ b').
      now rewrite (startswith_tail k (String c m) b b' Hk Hb H).
    + rewrite (IH H). apply orb_true_r.
Qed.

(** Lower-casing a text and lower-casing it with more text behind it
    agree up to a tail of the first that has no ASCII in it (the start of
    a sequence that the text behind completes). *)
Lemma lower_app_tail (post : string) (n : nat) (s : string) :
  (String.length s <= n)%nat ->
  exists m b b' : string,
    PyStr.lower s = m +:+ b /\ PyStr.lower (s +:+ post) = m +:+ b' /\
    no_ascii b = true.
Proof.
  revert s. induction n as [|n IH]; intros s Hn.
  { destruct s; [|simpl in Hn; lia]. now exists "", "", (PyStr.lower post). }
  destruct s as [|a s1]; [now exists "", "", (PyStr.lower post)|].
  destruct (is_ascii a) eqn:Ha.
  { destruct (IH s1) as (m & b & b' & Hs & Hp & Hb); [simpl in Hn; lia|].
    exists (String (PyStr.lower_char a) m), b, b'.
    cbn [String.append]. rewrite !lower_ascii_head, Hs, Hp by exact Ha.
    now split. }
  pose proof (lower_char_not_ascii a Ha) as Hla.
  destruct s1 as [|b s2].
  { exists "", (String a ""), (PyStr.lower (String a "" +:+ post)).
    cbn [PyStr.lower String.append no_ascii]. rewrite Hla, Ha. now split. }
  destruct (PyStr.is_dotted_capital_i a b) eqn:Hd.
  { destruct (IH s2) as (m & t & t' & Hs & Hp & Hb); [simpl in Hn; lia|].
    exists (String "i" (PyStr.combining_dot_above +:+ m)), t, t'.
    cbn [String.append PyStr.lower]. rewrite Hd, Hs, Hp. now split. }
  destruct s2 as [|c s3].
  { destruct (is_ascii b) eqn:Hb.
    - exists (String a (String (PyStr.lower_char b) "")), "", (PyStr.lower post).
      split; [cbn [PyStr.lower]; now rewrite Hd, Hla|]. split; [|reflexivity].
      cbn [String.append].
      assert (Hplain : PyStr.lower (String a (String b post))
                       = String a (PyStr.lower (String b post))).
      { destruct post as [|c post]; cbn [PyStr.lower]; rewrite Hd, Hla;
          [reflexivity|].
        unfold PyStr.is_kelvin_sign.
        destruct (Ascii.eqb_spec b "132") as [->|]; [discriminate|].
        now rewrite andb_false_r. }
      rewrite Hplain. now rewrite lower_ascii_head by exact Hb.
    - exists "", (String a (String b "")),
             (PyStr.lower (String a (String b "") +:+ post)).
      cbn [PyStr.lower String.append no_ascii].
      rewrite Hd, Hla, (lower_char_not_ascii b Hb), Ha, Hb. now split. }
  destruct (PyStr.is_kelvin_sign a b c) eqn:Hk.
  { destruct (IH s3) as (m & t & t' & Hs & Hp & Hb); [simpl in Hn; lia|].
    exists (String "k" m), t, t'.
    cbn [String.append PyStr.lower]. rewrite Hd, Hk, Hs, Hp. now split. }
  destruct (IH (String b (String c s3))) as (m & t & t' & Hs & Hp & Hb);
    [simpl in Hn |- *; lia|].
  exists (String a m), t, t'.
  split; [|split; [|exact Hb]].
  - change (PyStr.lower (String a (String b (String c s3))))
      with (if PyStr.is_dotted_capital_i a b
            then String "i" (PyStr.combining_dot_above +:+ PyStr.lower (String c s3))
            else if PyStr.is_kelvin_sign a b c then String "k" (PyStr.lower s3)
                 else String (PyStr.lower_char a)
                        (PyStr.lower (String b (String c s3)))).
    now rewrite Hd, Hk, Hla, Hs.
  - cbn [String.append] in Hp |- *.
    change (PyStr.lower (String a (String b (String c (s3 +:+ post)))))
      with (if PyStr.is_dotted_capital_i a b
            then String "i" (PyStr.combining_dot_above
                             +:+ PyStr.lower (String c (s3 +:+ post)))
            else if PyStr.is_kelvin_sign a b c
                 then String "k" (PyStr.lower (s3 +:+ post))
                 else String (PyStr.lower_char a)
                        (PyStr.lower (String b (String c (s3 +:+ post))))).
    now rewrite Hd, Hk, Hla, Hp.
Qed.

(** What one more byte in front does to the lower-cased text. *)
Lemma lower_cons_contains (k : string) (a : ascii) (s : string) :
  ascii_text k = true ->
  PyStr.contains k (PyStr.lower s) = true ->
  PyStr.contains k (PyStr.lower (String a s)) = true.
Proof.
  intros Hk H. destruct (is_ascii a) eqn:Ha.
  { rewrite lower_ascii_head by exact Ha. now apply contains_cons. }
  destruct s as [|b s2]; [now apply contains_cons|].
  cbn [PyStr.lower]. destruct (PyStr.is_dotted_capital_i a b) eqn:Hd.
  { unfold PyStr.is_dotted_capital_i in Hd.
    apply andb_true_iff in Hd as [_ Hb]. apply Ascii.eqb_eq in Hb. subst b.
    assert (Hs : PyStr.lower (String "176" s2) = String "176" (PyStr.lower s2))
      by (destruct s2 as [|c [|d s2]]; reflexivity).
    rewrite Hs in H. apply contains_drop_head in H; [|exact Hk|reflexivity].
    now apply contains_cons, (contains_app_l k PyStr.combining_dot_above). }
  destruct s2 as [|c s3]; [now apply contains_cons|].
  destruct (PyStr.is_kelvin_sign a b c) eqn:Hkel; [|now apply contains_cons].
  unfold PyStr.is_kelvin_sign in Hkel.
  apply andb_true_iff in Hkel as [Hkel Hc].
  apply andb_true_iff in Hkel as [_ Hb].
  apply Ascii.eqb_eq in Hb, Hc. subst b c.
  assert (Hs : PyStr.lower (String "132" (String "170" s3))
               = String "132" (String "170" (PyStr.lower s3)))
    by (destruct s3 as [|d [|e s3]]; reflexivity).
  rewrite Hs in H.
  apply contains_drop_head in H; [|exact Hk|reflexivity].
  apply contains_drop_head in H; [|exact Hk|reflexivity].
  now apply contains_cons.
Qed.

(** An ASCII keyword found in the lower-cased form of a text is found in
    the lower-cased form of every text that holds it. *)
Lemma lower_contains_embedding (k s pre post : string) :
  ascii_text k = true ->
  PyStr.contains k (PyStr.lower s) = true ->
  PyStr.contains k (PyStr.lower (pre +:+ s +:+ post)) = true.
Proof.
  intros Hk H. induction pre as [|a pre IH].
  - cbn [String.append].
    destruct (lower_app_tail post (String.length s) s (le_n _))
      as (m & b & b' & Hs & Hp & Hb).
    rewrite Hp. rewrite Hs in H. exact (contains_tail k m b b' Hk Hb H).
  - cbn [String.append]. now apply lower_cons_contains.
Qed.

Lemma substring_of_trans (a b c : string) :
  PyStr.substring_of a b -> PyStr.substring_of b c -> PyStr.substring_of a c.
Proof.
  intros (p1 & q1 & ->) (p2 & q2 & ->).
  exists (p2 +:+ p1), (q1 +:+ q2). now rewrite !append_assoc.
Qed.

Lemma substring_of_lower (k s t : string) :
  ascii_text k = true ->
  PyStr.substring_of s t ->
  PyStr.substring_of k (PyStr.lower s) -> PyStr.substring_of k (PyStr.lower t).
Proof.
  intros Hk (pre & post & ->) H. apply contains_spec.
  apply lower_contains_embedding; [exact Hk|]. now apply contains_spec.
Qed.

Lemma contains_trans (a b text : string) :
  PyStr.substring_of a b ->
  PyStr.contains b text = true -> PyStr.contains a text = true.
Proof.
  intros Hab H. apply contains_spec. apply contains_spec in H.
  exact (substring_of_trans _ _ _ Hab H).
Qed.

Lemma director_in_senior_director :
  PyStr.substring_of "director" "senior director".
Proof. now exists "senior ", EmptyString. Qed.

(** X1: whatever the biography, [extract_senior_title] answers nothing or
    one of six labels; "Senior director" is never the answer, although
    "senior director" is a keyword, because "director" stands before it in
    the list and occurs wherever it occurs: a biography with "senior
    director" gets one of the four labels up to "Director". *)
Theorem role_is_a_known_label (bio : option string) :
  (extract_senior_title bio = None \/
   exists r : string, r ∈ role_labels /\ extract_senior_title bio = Some r) /\
  extract_senior_title bio <> Some "Senior director" /\
  (PyStr.substring_of "senior director" (folded bio) ->
   exists r : string,
     r ∈ labels_before_senior_director /\ extract_senior_title bio = Some r).
Proof.
  rewrite extract_senior_title_folded.
  unfold SENIORITY_KEYWORDS, STARTUP_KEYWORDS, first_keyword.
  set (t := folded bio).
  pose proof (contains_trans _ _ t director_in_senior_director) as Hshadow.
  unfold role_labels, labels_before_senior_director.
  destruct (PyStr.contains "staff engineer" t);
    [split; [right; eexists; split; [|reflexivity]; repeat constructor
            |split; [discriminate|intros _; eexists; split; [|reflexivity]; repeat constructor]]|].
  destruct (PyStr.contains "principal engineer" t);
    [split; [right; eexists; split; [|reflexivity]; repeat constructor
            |split; [discriminate|intros _; eexists; split; [|reflexivity]; repeat constructor]]|].
  destruct (PyStr.contains "senior manager" t);
    [split; [right; eexists; split; [|reflexivity]; repeat constructor
            |split; [discriminate|intros _; eexists; split; [|reflexivity]; repeat constructor]]|].
  destruct (PyStr.contains "director" t) eqn:Hd;
    [split; [right; eexists; split; [|reflexivity]; repeat constructor
            |split; [discriminate|intros _; eexists; split; [|reflexivity]; repeat constructor]]|].
  assert (Hsd : PyStr.contains "senior director" t = false).
  { destruct (PyStr.contains "senior director" t); [|reflexivity].
    discriminate (Hshadow eq_refl). }
  rewrite Hsd.
  assert (Hnot : ~ PyStr.substring_of "senior director" t)
    by now apply contains_false.
  destruct (PyStr.contains "engineer" t);
    [split; [right; eexists; split; [|reflexivity]; repeat constructor
            |split; [discriminate|intros H; contradiction]]|].
  repeat match goal with
         | |- context [PyStr.contains ?k t] => destruct (PyStr.contains k t)
         end;
    (split;
     [first [left; reflexivity | right; eexists; split; [|reflexivity]; repeat constructor]
     |split; [discriminate|intros H; contradiction]]).
Qed.

(** ** Matching is by substring *)

Lemma extract_senior_title_none (bio : option string) :
  extract_senior_title bio = None <->
  no_match SENIORITY_KEYWORDS (folded bio) /\ no_match STARTUP_KEYWORDS (folded bio).
Proof.
  rewrite extract_senior_title_folded, <- !first_keyword_none.
  destruct (first_keyword SENIORITY_KEYWORDS (folded bio)).
  - split; [discriminate | intros [H _]; discriminate].
  - destruct (first_keyword STARTUP_KEYWORDS (folded bio)).
    + split; [discriminate | intros [_ H]; discriminate].
    + split; [now split | reflexivity].
Qed.

Lemma no_match_substring (keywords : list string) (s t : string) :
  Forall (fun k => ascii_text k = true) keywords ->
  PyStr.substring_of s t ->
  no_match keywords (PyStr.lower t) -> no_match keywords (PyStr.lower s).
Proof.
  intros Hascii Hst H k Hk Hks. apply (H k Hk).
  rewrite Forall_forall in Hascii.
  exact (substring_of_lower k s t (Hascii k Hk) Hst Hks).
Qed.

Lemma some_match_substring (keywords : list string) (s t : string) :
  Forall (fun k => ascii_text k = true) keywords ->
  PyStr.substring_of s t ->
  some_match keywords (PyStr.lower s) -> some_match keywords (PyStr.lower t).
Proof.
  intros Hascii Hst (k & Hk & Hks). exists k. split; [exact Hk|].
  rewrite Forall_forall in Hascii.
  exact (substring_of_lower k s t (Hascii k Hk) Hst Hks).
Qed.

Lemma excluded_substring (blocklist : list string) (s t : string) :
  Forall (fun k => ascii_text k = true) blocklist ->
  PyStr.substring_of s t ->
  (if negb (PyStr.truthy (Some s)) then false
   else any_in blocklist (PyStr.lower s)) = true ->
  (if negb (PyStr.truthy (Some t)) then false
   else any_in blocklist (PyStr.lower t)) = true.
Proof.
  intros Hascii Hst H.
  apply (excluded_spec blocklist (Some s)) in H as (s' & [= <-] & Hne & Hm).
  apply (excluded_spec blocklist (Some t)). exists t. split; [reflexivity|].
  split.
  - intros ->. destruct Hst as (pre & post & Hst).
    destruct pre; [|discriminate]. destruct s; [contradiction | discriminate].
  - exact (some_match_substring _ s t Hascii Hst Hm).
Qed.

(** X2: the three checks on free text see substrings, not words: when a
    text occurs inside a longer one, the longer one is excluded by company
    whenever the shorter is, excluded by industry whenever the shorter is,
    and has a role whenever the shorter has one. *)
Theorem embedding_keeps_verdicts (s t : string) :
  PyStr.substring_of s t ->
  (is_excluded_company (Some s) = true -> is_excluded_company (Some t) = true) /\
  (is_excluded_industry (Some s) = true -> is_excluded_industry (Some t) = true) /\
  (extract_senior_title (Some s) <> None -> extract_senior_title (Some t) <> None).
Proof.
  intros Hst. split; [|split].
  - apply excluded_substring; [repeat constructor | exact Hst].
  - apply excluded_substring; [repeat constructor | exact Hst].
  - intros Hs Ht. apply Hs. apply extract_senior_title_none.
    apply extract_senior_title_none in Ht as [H1 H2].
    split.
    + apply (no_match_substring _ s t); [repeat constructor | exact Hst | exact H1].
    + apply (no_match_substring _ s t); [repeat constructor | exact Hst | exact H2].
Qed.

Lemma embedding_keeps_verdicts_witness :
  is_excluded_company (Some "Tuberculosis lab, Kampala") = true /\
  extract_senior_title (Some "Bioengineering student") <> None.
Proof.
  split.
  - apply (embedding_keeps_verdicts "uber" "Tuberculosis lab, Kampala");
      [now exists "T", "culosis lab, Kampala" | reflexivity].
  - apply (embedding_keeps_verdicts "engineer" "Bioengineering student");
      [now exists "Bio", "ing student" | vm_compute; discriminate].
Defined.

(** ** Counting pushes *)

Lemma count_recent_pushes_app (since : datetime) (a b : list gh_event) :
  count_recent_pushes since (a ++ b) 0 =
  count_recent_pushes since a 0 + count_recent_pushes since b 0.
Proof.
  rewrite !count_recent_pushes_filter, filter_app, length_app. lia.
Qed.

(** X3: the count that [get_recent_commit_count] returns lies between 0
    and the number of entries of the feed it was sent, whatever the status
    of the answer; the count of a feed made of two parts is the sum of the
    counts of the parts; entries that are not push events change nothing;
    and an earlier cut-off never counts less. *)
Theorem recent_commit_count_bounds (env : environment) (username : string)
    (w : world) :
  (exists c : Z,
      get_recent_commit_count env username w =
      (Return c, after w [Now; Http (GetUserEvents username)]) /\
      0 <= c <=
      Z.of_nat (length (json (events_api env (history w ++ [Now]) username)))) /\
  (forall (since : datetime) (a b : list gh_event),
      count_recent_pushes since (a ++ b) 0 =
      count_recent_pushes since a 0 + count_recent_pushes since b 0) /\
  (forall (since : datetime) (events : list gh_event),
      count_recent_pushes since events 0 =
      count_recent_pushes since
        (filter (fun e => event_type e = "PushEvent") events) 0) /\
  (forall (earlier later : datetime) (events : list gh_event),
      earlier <= later ->
      count_recent_pushes later events 0 <= count_recent_pushes earlier events 0).
Proof.
  split; [|split; [|split]].
  - exists (commits_seen env username (history w)).
    split; [apply get_recent_commit_count_run|].
    unfold commits_seen. cbv zeta.
    destruct (status_code (events_api env (history w ++ [Now]) username) =? 200).
    + pose proof (length_filter (pushed_since (clock env (history w) - days 30))
                    (json (events_api env (history w ++ [Now]) username))).
      lia.
    + lia.
  - apply count_recent_pushes_app.
  - intros since events. rewrite !count_recent_pushes_filter. do 2 f_equal.
    induction events as [|e events IH]; [reflexivity|].
    destruct (decide (event_type e = "PushEvent")) as [Hp|Hp].
    + rewrite (filter_cons_True (fun e => event_type e = "PushEvent")) by exact Hp.
      destruct (decide (pushed_since since e)) as [Hs|Hs].
      * rewrite !filter_cons_True by exact Hs. simpl. now rewrite IH.
      * rewrite !filter_cons_False by exact Hs. exact IH.
    + rewrite (filter_cons_False (fun e => event_type e = "PushEvent")) by exact Hp.
      rewrite filter_cons_False by (intros [H _]; contradiction). exact IH.
  - intros earlier later events Hle. rewrite !count_recent_pushes_filter.
    apply Z.add_le_mono_l, inj_le.
    induction events as [|e events IH]; [reflexivity|].
    destruct (decide (pushed_since later e)) as [Hl|Hl].
    + rewrite filter_cons_True by exact Hl.
      rewrite filter_cons_True by (destruct Hl; split; [assumption | lia]).
      simpl. lia.
    + rewrite filter_cons_False by exact Hl.
      destruct (decide (pushed_since earlier e)) as [He|He].
      * rewrite filter_cons_True by exact He. simpl. lia.
      * now rewrite filter_cons_False by exact He.
Qed.

(** ** What one candidate costs and when it is enrolled *)

(** The candidate [profile], met in [w], gets as far as the count of its
    recent pushes: its lookup answers 200, its name is not known, neither
    its company nor its biography excludes it, and its biography gives a
    role. *)
Definition reaches_activity_stage (env : environment) (profile : search_item)
    (w : world) : bool :=
  let login := item_login profile in
  let response := profile_response env w login in
  let pd := json response in
  (status_code response =? 200)
  && negb (bool_decide (login ∈ existing_users w))
  && negb (is_excluded_company (pd_company pd))
  && negb (is_excluded_industry (pd_bio pd))
  && PyStr.truthy (extract_senior_title (pd_bio pd)).

(** The user lookups sent in a history. *)
Definition lookups (acts : list action) : list string :=
  omap (fun a => match a with Http (GetUser u) => Some u | _ => None end) acts.

(** What [process_profile env profile] does from [w], stage by stage. *)
Definition candidate_actions (env : environment) (profile : search_item)
    (w : world) : list action :=
  let login := item_login profile in
  let response := profile_response env w login in
  let pd := json response in
  let commits :=
    commits_seen env (format_str (pd_login pd))
      (history w ++ [Http (GetUser login)]) in
  Http (GetUser login)
  :: (if negb (status_code response =? 200) then
        [Print (LogFetchProfileFailed login (status_code response));
         Print (LogFetchDataFailed login)]
      else if bool_decide (login ∈ existing_users w) then
        [Print (LogAlreadyExists login)]
      else if is_excluded_company (pd_company pd) then
        [Print (LogSkippedCompany login (pd_company pd))]
      else if is_excluded_industry (pd_bio pd) then
        [Print (LogSkippedIndustry login)]
      else if negb (PyStr.truthy (extract_senior_title (pd_bio pd))) then
        [Print (LogNoSeniorTitle login)]
      else
        Now :: Http (GetUserEvents (format_str (pd_login pd)))
        :: (if 5 <=? commits then
              [CsvAppend (champion login pd commits);
               Print (LogSaved login); Print (LogAdded login)]
            else [Print (LogLowActivity login)])).

Lemma performed_history {A} (m : M A) (w : world) (acts : list action) :
  history (snd (m w)) = (history w ++ acts)%list -> performed m w = acts.
Proof. intros H. unfold performed. rewrite H. apply drop_app_length. Qed.

(** [process_profile] always returns, having done [candidate_actions]. *)
Lemma process_profile_performed (env : environment) (profile : search_item)
    (w : world) :
  fst (process_profile env profile w) = Return tt /\
  history (snd (process_profile env profile w)) =
  (history w ++ candidate_actions env profile w)%list.
Proof.
  unfold candidate_actions. cbv zeta.
  set (login := item_login profile).
  set (pd := json (profile_response env w login)).
  destruct (Z.eq_dec (status_code (profile_response env w login)) 200) as [H|H].
  2: { rewrite process_profile_fetch_failed by exact H.
       apply Z.eqb_neq in H. fold login. rewrite H. now split. }
  rewrite (proj2 (Z.eqb_eq _ _) H). simpl negb. cbv iota.
  destruct (decide (login ∈ existing_users w)) as [Hin|Hin].
  { rewrite process_profile_known by assumption.
    rewrite bool_decide_eq_true_2 by exact Hin. now split. }
  rewrite bool_decide_eq_false_2 by exact Hin.
  destruct (is_excluded_company (pd_company pd)) eqn:Hc.
  { rewrite process_profile_excluded_company by assumption. now split. }
  destruct (is_excluded_industry (pd_bio pd)) eqn:Hi.
  { rewrite process_profile_excluded_industry by assumption. now split. }
  destruct (extract_senior_title (pd_bio pd)) as [r|] eqn:Hr.
  2: { rewrite process_profile_no_title by assumption. now split. }
  rewrite (role_not_empty _ _ Hr). simpl negb. cbv iota.
  destruct (Z.lt_ge_cases
              (commits_seen env (format_str (pd_login pd))
                 (history w ++ [Http (GetUser login)])) 5) as [Hlow|Hhigh].
  - rewrite (process_profile_low_activity env profile w r) by assumption.
    rewrite (proj2 (Z.leb_gt _ _) Hlow). now split.
  - rewrite (process_profile_enrolled env profile w r) by assumption.
    rewrite (proj2 (Z.leb_le _ _) Hhigh). now split.
Qed.

(** X4: a candidate never stops the page: [process_profile] always
    returns.  It sends the lookup, and the events request only when the
    candidate gets as far as the count (known, excluded and role-less
    candidates cost one request); and it appends a row, the one of this
    candidate, exactly when the candidate gets that far and the count is 5
    or more. *)
Theorem candidate_cost_and_verdict (env : environment) (profile : search_item)
    (w : world) :
  let login := item_login profile in
  let pd := json (profile_response env w login) in
  let commits :=
    commits_seen env (format_str (pd_login pd))
      (history w ++ [Http (GetUser login)]) in
  let acts := performed (process_profile env profile) w in
  fst (process_profile env profile w) = Return tt /\
  requests acts =
  GetUser login
  :: (if reaches_activity_stage env profile w
      then [GetUserEvents (format_str (pd_login pd))] else []) /\
  appended acts =
  (if reaches_activity_stage env profile w && (5 <=? commits)
   then [champion login pd commits] else []).
Proof.
  intros login pd commits acts.
  destruct (process_profile_performed env profile w) as [Hret Hhist].
  split; [exact Hret|].
  unfold acts. rewrite (performed_history _ _ _ Hhist).
  unfold candidate_actions, reaches_activity_stage. cbv zeta.
  fold login. fold pd. fold commits.
  destruct (status_code (profile_response env w login) =? 200);
    [|now split].
  destruct (bool_decide (login ∈ existing_users w)); [now split|].
  destruct (is_excluded_company (pd_company pd)); [now split|].
  destruct (is_excluded_industry (pd_bio pd)); [now split|].
  destruct (PyStr.truthy (extract_senior_title (pd_bio pd))); [|now split].
  destruct (5 <=? commits); now split.
Qed.

(** ** What one page does *)

(** What the loop over [items] does from [w], candidate after candidate. *)
Fixpoint candidates_actions (env : environment) (items : list search_item)
    (w : world) : list action :=
  match items with
  | [] => []
  | profile :: items' =>
      candidate_actions env profile w
      ++ candidates_actions env items' (snd (process_profile env profile w))
  end.

(** The cooldown after a 403. *)
Definition cooldown : Z := 60 * microseconds_per_second.

(** The ways in which a call of [scrape_github env _ page] from [w] ends:
    with an outcome and a world. *)
Inductive scrapes (env : environment) (page : Z)
  : world -> outcome bool -> world -> Prop :=
| scrapes_out_of_fuel (w : world) :
    scrapes env page w OutOfFuel w
| scrapes_probe_failed (w : world) :
    status_code (limits_seen env page w) <> 200 ->
    scrapes env page w (Raise TypeError)
      (after w [Print (LogScrapingPage page); Http GetRateLimit;
                Print LogRateLimitFailed])
| scrapes_negative_wait (w : world) :
    status_code (limits_seen env page w) = 200 ->
    remaining (json (limits_seen env page w)) = 0 ->
    wait_seen env page w < 0 ->
    scrapes env page w (Raise ValueError)
      (after w [Print (LogScrapingPage page); Http GetRateLimit; Now;
                Print (LogRateLimitReached (whole_seconds (wait_seen env page w)))])
| scrapes_forbidden (w : world) (o : outcome bool) (w' : world) :
    gate_open env page w ->
    status_code (page_response env page w) = 403 ->
    scrapes env page
      (after w (gate_actions env page w
                ++ [Http (GetSearchUsers page); Print LogForbidden;
                    Sleep cooldown])) o w' ->
    scrapes env page w o w'
| scrapes_empty (w : world) :
    gate_open env page w ->
    status_code (page_response env page w) = 200 ->
    json (page_response env page w) = [] ->
    scrapes env page w (Return false)
      (after w (gate_actions env page w
                ++ [Http (GetSearchUsers page); Print (LogPageReturned page 0);
                    Print (LogNoMoreUsers page)]))
| scrapes_candidates (w : world) :
    gate_open env page w ->
    status_code (page_response env page w) = 200 ->
    json (page_response env page w) <> [] ->
    let items := json (page_response env page w) in
    let w1 :=
      after w (gate_actions env page w
               ++ [Http (GetSearchUsers page);
                   Print (LogPageReturned page (Z.of_nat (length items)))]) in
    scrapes env page w (Return true)
      (snd (for_each items (process_profile env) w1))
| scrapes_error (w : world) :
    gate_open env page w ->
    status_code (page_response env page w) <> 200 ->
    status_code (page_response env page w) <> 403 ->
    scrapes env page w (Return true)
      (after w (gate_actions env page w
                ++ [Http (GetSearchUsers page);
                    Print (LogError (status_code (page_response env page w)))])).

(** The ways in which the main loop, from [page] and [w], ends. *)
Inductive crawls (env : environment)
  : Z -> world -> outcome unit -> world -> Prop :=
| crawls_out_of_fuel (page : Z) (w : world) :
    crawls env page w OutOfFuel w
| crawls_stop (page : Z) (w w' : world) :
    scrapes env page w (Return false) w' ->
    crawls env page w (Return tt) w'
| crawls_next (page : Z) (w w1 : world) (o : outcome unit) (w' : world) :
    scrapes env page w (Return true) w1 ->
    crawls env (page + 1) w1 o w' ->
    crawls env page w o w'
| crawls_raise (page : Z) (w w' : world) (e : exn) :
    scrapes env page w (Raise e) w' ->
    crawls env page w (Raise e) w'
| crawls_retries_out_of_fuel (page : Z) (w w' : world) :
    scrapes env page w OutOfFuel w' ->
    crawls env page w OutOfFuel w'.

Lemma for_each_performed (env : environment) (items : list search_item)
    (w : world) :
  for_each items (process_profile env) w =
  (Return tt, snd (for_each items (process_profile env) w)) /\
  history (snd (for_each items (process_profile env) w)) =
  (history w ++ candidates_actions env items w)%list.
Proof.
  revert w. induction items as [|x items IH]; intros w.
  - simpl. now rewrite app_nil_r.
  - destruct (process_profile_performed env x w) as [Hret Hhist].
    simpl for_each. unfold bind.
    cbn [candidates_actions].
    destruct (process_profile env x w) as [o w1]. cbn [fst snd] in Hret, Hhist |- *.
    subst o. destruct (IH w1) as [IHret IHhist]. split.
    + rewrite IHret at 1. reflexivity.
    + rewrite IHhist, Hhist. now rewrite <- app_assoc.
Qed.

Lemma handle_page_forbidden (env : environment) (retry : M bool) (page : Z)
    (response : response (list search_item)) (w : world) :
  status_code response = 403 ->
  handle_page env retry page response w =
  retry (after w [Print LogForbidden; Sleep cooldown]).
Proof.
  intros H. apply Z.eqb_eq in H. unfold handle_page. rewrite H.
  step print_run. change (time_sleep (60 * microseconds_per_second))
    with (perform (Sleep cooldown)).
  erewrite bind_run by (apply perform_after). now rewrite after_after.
Qed.

Lemma handle_page_candidates (env : environment) (retry : M bool) (page : Z)
    (response : response (list search_item)) (w : world) :
  status_code response = 200 ->
  json response <> [] ->
  handle_page env retry page response w =
  (Return true,
   snd (for_each (json response) (process_profile env)
          (after w [Print (LogPageReturned page
                             (Z.of_nat (length (json response))))]))).
Proof.
  intros H Hne. unfold handle_page.
  assert (H403 : (status_code response =? 403) = false) by now rewrite H.
  apply Z.eqb_eq in H. rewrite H403, H. cbv zeta.
  step print_run.
  assert (Hn : (Z.of_nat (length (json response)) =? 0) = false).
  { apply Z.eqb_neq. destruct (json response); [contradiction | simpl; lia]. }
  rewrite Hn.
  erewrite bind_run by (apply for_each_performed). reflexivity.
Qed.

(** Every call of [scrape_github] ends in one of these ways. *)
Lemma scrape_github_scrapes (env : environment) (fuel : nat) (page : Z)
    (w : world) :
  scrapes env page w (fst (scrape_github env fuel page w))
    (snd (scrape_github env fuel page w)).
Proof.
  revert w. induction fuel as [|fuel IH]; intros w; [apply scrapes_out_of_fuel|].
  destruct (Z.eq_dec (status_code (limits_seen env page w)) 200) as [H|H].
  2: { rewrite scrape_github_probe_failed by exact H.
       now apply scrapes_probe_failed. }
  assert (Hgate : gate_open env page w \/
                  (remaining (json (limits_seen env page w)) = 0 /\
                   wait_seen env page w < 0)).
  { unfold gate_open.
    destruct (Z.eq_dec (remaining (json (limits_seen env page w))) 0) as [Hr|Hr];
      [|left; split; [exact H | intros Hz; contradiction]].
    destruct (Z.lt_ge_cases (wait_seen env page w) 0) as [Hw|Hw];
      [right; now split | left; split; [exact H | intros _; exact Hw]]. }
  destruct Hgate as [Hgate | [Hr Hw]].
  2: { rewrite scrape_github_negative_wait by assumption.
       now apply scrapes_negative_wait. }
  rewrite scrape_github_gate_open by exact Hgate.
  destruct (Z.eq_dec (status_code (page_response env page w)) 403) as [H403|H403].
  { rewrite handle_page_forbidden by exact H403. rewrite after_after, <- app_assoc.
    apply scrapes_forbidden; [exact Hgate | exact H403 | apply IH]. }
  destruct (Z.eq_dec (status_code (page_response env page w)) 200) as [H200|H200].
  2: { rewrite handle_page_error by assumption. rewrite after_after, <- app_assoc.
       now apply scrapes_error. }
  destruct (decide (json (page_response env page w) = [])) as [He|Hne].
  - rewrite handle_page_empty by assumption. rewrite after_after, <- app_assoc.
    now apply scrapes_empty.
  - rewrite handle_page_candidates by assumption.
    rewrite after_after, <- app_assoc. cbn [fst snd].
    exact (scrapes_candidates env page w Hgate H200 Hne).
Qed.

(** Every run of the main loop ends in one of these ways. *)
Lemma crawl_crawls (env : environment) (fuel : nat) (page : Z) (w : world) :
  crawls env page w (fst (crawl env fuel page w)) (snd (crawl env fuel page w)).
Proof.
  revert page w. induction fuel as [|fuel IH]; intros page w;
    [apply crawls_out_of_fuel|].
  rewrite crawl_unfold.
  pose proof (scrape_github_scrapes env fuel page w) as Hs.
  destruct (scrape_github env fuel page w) as [[[|]| |] w1]; simpl in Hs |- *.
  - eapply crawls_next; [exact Hs | apply IH].
  - now apply crawls_stop.
  - now apply crawls_raise.
  - now apply crawls_retries_out_of_fuel.
Qed.

(** [load_existing_users] stops with an error and nothing done, or returns
    a set after at most the report of a missing file. *)
Lemma load_existing_users_cases (w : world) :
  (exists e : exn, load_existing_users w = (Raise e, w)) \/
  (exists (known : gset string) (prints : list action),
      load_existing_users w = (Return known, after w prints) /\
      (prints = [] \/ prints = [Print LogCsvNotFound])).
Proof.
  unfold load_existing_users, bind. cbn [fst snd].
  destruct (champions_csv w) as [content|].
  - destruct (CsvRead.reader content) as [records|];
      [|left; now exists CsvError].
    destruct (CsvRead.dict_column "name" records) as [names|];
      [|left; now exists KeyError].
    right. exists (strings_of names), []. rewrite after_nil. now split; [|left].
  - right. exists ∅, [Print LogCsvNotFound]. now split; [|right].
Qed.

(** ** Properties of every history *)

Section TraceInvariant.

Variable env : environment.

(** A property of lists of actions that holds of nothing done, of one
    thing after the other when it holds of both, and of each piece of a
    page. *)
Variable P : list action -> Prop.
Hypothesis P_nil : P [].
Hypothesis P_app : forall a b : list action, P a -> P b -> P (a ++ b).
Hypothesis P_print : forall l : log_line, P [Print l].
Hypothesis P_probe_failed : forall page : Z,
    P [Print (LogScrapingPage page); Http GetRateLimit; Print LogRateLimitFailed].
Hypothesis P_negative_wait : forall (page seconds : Z),
    P [Print (LogScrapingPage page); Http GetRateLimit; Now;
       Print (LogRateLimitReached seconds)].
Hypothesis P_gate : forall (page : Z) (w : world),
    gate_open env page w ->
    P (gate_actions env page w ++ [Http (GetSearchUsers page)]).
Hypothesis P_cooldown : P [Sleep cooldown].
Hypothesis P_candidate : forall (profile : search_item) (w : world),
    P (candidate_actions env profile w).

Lemma candidates_trace (items : list search_item) (w : world) :
  P (candidates_actions env items w).
Proof.
  revert w. induction items as [|x items IH]; intros w;
    cbn [candidates_actions]; [exact P_nil|].
  apply P_app; [apply P_candidate | apply IH].
Qed.

Lemma scrapes_trace (page : Z) (w : world) (o : outcome bool) (w' : world) :
  scrapes env page w o w' ->
  exists acts : list action, history w' = (history w ++ acts)%list /\ P acts.
Proof.
  induction 1 as [w|w H|w H Hr Hw|w o w' Hgate H403 _ IH|w Hgate H200 He
                  |w Hgate H200 Hne|w Hgate H200 H403].
  - exists []. split; [now rewrite app_nil_r | exact P_nil].
  - eexists. split; [reflexivity | apply P_probe_failed].
  - eexists. split; [reflexivity | apply P_negative_wait].
  - destruct IH as (acts & Hh & Hp). eexists. split.
    + rewrite Hh, history_after, <- app_assoc. reflexivity.
    + apply P_app; [|exact Hp].
      change (gate_actions env page w
              ++ [Http (GetSearchUsers page); Print LogForbidden; Sleep cooldown])%list
        with (gate_actions env page w
              ++ [Http (GetSearchUsers page)] ++ [Print LogForbidden]
              ++ [Sleep cooldown])%list.
      rewrite app_assoc. apply P_app; [now apply P_gate|].
      apply P_app; [apply P_print | exact P_cooldown].
  - eexists. split; [reflexivity|].
    change (gate_actions env page w
            ++ [Http (GetSearchUsers page); Print (LogPageReturned page 0);
                Print (LogNoMoreUsers page)])%list
      with (gate_actions env page w
            ++ [Http (GetSearchUsers page)] ++ [Print (LogPageReturned page 0)]
            ++ [Print (LogNoMoreUsers page)])%list.
    rewrite app_assoc. apply P_app; [now apply P_gate|].
    apply P_app; apply P_print.
  - destruct (for_each_performed env items w1) as [_ Hh]. eexists. split.
    + rewrite Hh. unfold w1. rewrite history_after, <- app_assoc. reflexivity.
    + change (gate_actions env page w
              ++ [Http (GetSearchUsers page);
                  Print (LogPageReturned page (Z.of_nat (length items)))])%list
        with (gate_actions env page w
              ++ [Http (GetSearchUsers page)]
              ++ [Print (LogPageReturned page (Z.of_nat (length items)))])%list.
      rewrite app_assoc. apply P_app; [|apply candidates_trace].
      apply P_app; [now apply P_gate | apply P_print].
  - eexists. split; [reflexivity|].
    change (gate_actions env page w
            ++ [Http (GetSearchUsers page);
                Print (LogError (status_code (page_response env page w)))])%list
      with (gate_actions env page w
            ++ [Http (GetSearchUsers page)]
            ++ [Print (LogError (status_code (page_response env page w)))])%list.
    rewrite app_assoc. apply P_app; [now apply P_gate | apply P_print].
Qed.

Lemma crawls_trace (page : Z) (w : world) (o : outcome unit) (w' : world) :
  crawls env page w o w' ->
  exists acts : list action, history w' = (history w ++ acts)%list /\ P acts.
Proof.
  induction 1 as [page w|page w w' Hs|page w w1 o w' Hs _ IH|page w w' e Hs
                  |page w w' Hs].
  - exists []. split; [now rewrite app_nil_r | exact P_nil].
  - exact (scrapes_trace _ _ _ _ Hs).
  - destruct (scrapes_trace _ _ _ _ Hs) as (a & Ha & Hpa).
    destruct IH as (b & Hb & Hpb). exists (a ++ b)%list. split.
    + rewrite Hb, Ha. now rewrite <- app_assoc.
    + now apply P_app.
  - exact (scrapes_trace _ _ _ _ Hs).
  - exact (scrapes_trace _ _ _ _ Hs).
Qed.

Lemma crawl_trace (fuel : nat) (page : Z) (w : world) :
  P (performed (crawl env fuel page) w).
Proof.
  destruct (crawls_trace _ _ _ _ (crawl_crawls env fuel page w)) as (acts & Hh & Hp).
  now rewrite (performed_history _ _ _ Hh).
Qed.

Lemma scrape_github_trace (fuel : nat) (page : Z) (w : world) :
  P (performed (scrape_github env fuel page) w).
Proof.
  destruct (scrapes_trace _ _ _ _ (scrape_github_scrapes env fuel page w))
    as (acts & Hh & Hp).
  now rewrite (performed_history _ _ _ Hh).
Qed.

(** The main block: it stops in [load_existing_users] with nothing done,
    or crawls from page 1 after at most the report of a missing file. *)
Lemma main_trace (fuel : nat) (w : world) :
  P (performed (main env fuel) w).
Proof.
  destruct (load_existing_users_cases w)
    as [[e He] | (known & prints & Hload & Hprints)].
  - rewrite (performed_history _ w []); [exact P_nil|].
    unfold main. rewrite (bind_raise _ _ _ _ _ He). simpl.
    now rewrite app_nil_r.
  - destruct (crawls_trace _ _ _ _
                (crawl_crawls env fuel 1
                   {| existing_users := known;
                      champions_csv := champions_csv (after w prints);
                      history := history (after w prints) |}))
      as (acts & Hh & Hp).
    rewrite (performed_history _ w (prints ++ acts)).
    + apply P_app; [|exact Hp].
      destruct Hprints as [-> | ->]; [exact P_nil | apply P_print].
    + rewrite (main_unfold env fuel _ _ _ Hload), Hh.
      cbn [history]. rewrite history_after. now rewrite <- app_assoc.
Qed.

End TraceInvariant.

(** ** Appended records *)

(** A record with five recent pushes or more and one of the six labels. *)
Definition qualified (p : profile_info) : Prop :=
  5 <= recent_commits p /\ role p ∈ role_labels.

(** An action that, if it appends a record, appends a qualified one. *)
Definition appends_qualified (a : action) : Prop :=
  match a with
  | CsvAppend p => qualified p
  | _ => True
  end.

Lemma extract_senior_title_label (bio : option string) (r : string) :
  extract_senior_title bio = Some r -> r ∈ role_labels.
Proof.
  rewrite extract_senior_title_folded.
  unfold SENIORITY_KEYWORDS, STARTUP_KEYWORDS, first_keyword, role_labels.
  pose proof (contains_trans _ _ (folded bio) director_in_senior_director) as Hs.
  destruct (PyStr.contains "staff engineer" (folded bio));
    [intros [= <-]; repeat constructor|].
  destruct (PyStr.contains "principal engineer" (folded bio));
    [intros [= <-]; repeat constructor|].
  destruct (PyStr.contains "senior manager" (folded bio));
    [intros [= <-]; repeat constructor|].
  destruct (PyStr.contains "director" (folded bio));
    [intros [= <-]; repeat constructor|].
  destruct (PyStr.contains "senior director" (folded bio));
    [discriminate (Hs eq_refl)|].
  repeat match goal with
         | |- context [PyStr.contains ?k ?t] => destruct (PyStr.contains k t)
         end; intros [= <-]; repeat constructor.
Qed.

(** A property of single actions that holds of every print, request and
    clock reading, of every sleep that is not negative and of every append
    of a qualified record, holds of all that a page, a crawl or the main
    block does. *)
Lemma all_actions (env : environment) (Q : action -> Prop) :
  (forall l : log_line, Q (Print l)) ->
  (forall r : request, Q (Http r)) ->
  Q Now ->
  (forall d : Z, 0 <= d -> Q (Sleep d)) ->
  (forall p : profile_info, qualified p -> Q (CsvAppend p)) ->
  forall (fuel : nat) (page : Z) (w : world),
    Forall Q (performed (scrape_github env fuel page) w) /\
    Forall Q (performed (crawl env fuel page) w) /\
    Forall Q (performed (main env fuel) w).
Proof.
  intros Hprint Hhttp Hnow Hsleep Happend fuel page w.
  assert (Hgate : forall (page : Z) (w : world),
             gate_open env page w ->
             Forall Q (gate_actions env page w ++ [Http (GetSearchUsers page)])).
  { intros page0 w0 [_ Hwait]. unfold gate_actions.
    destruct (remaining (json (limits_seen env page0 w0)) =? 0) eqn:E.
    - apply Z.eqb_eq in E. repeat constructor; auto.
    - repeat constructor; auto. }
  assert (Hcand : forall (profile : search_item) (w : world),
             Forall Q (candidate_actions env profile w)).
  { intros profile w0. unfold candidate_actions. cbv zeta.
    set (pd := json (profile_response env w0 (item_login profile))).
    constructor; [apply Hhttp|].
    destruct (negb (status_code _ =? 200)); [repeat constructor; auto|].
    destruct (bool_decide _); [repeat constructor; auto|].
    destruct (is_excluded_company _); [repeat constructor; auto|].
    destruct (is_excluded_industry _); [repeat constructor; auto|].
    destruct (extract_senior_title (pd_bio pd)) as [r|] eqn:Hr;
      [|repeat constructor; auto].
    rewrite (role_not_empty _ _ Hr). cbn [negb].
    constructor; [exact Hnow|]. constructor; [apply Hhttp|].
    destruct (5 <=? _) eqn:E; [|repeat constructor; auto].
    apply Z.leb_le in E. constructor; [|repeat constructor; auto].
    apply Happend. split; [exact E|]. unfold champion. cbn [role].
    fold pd. rewrite Hr. exact (extract_senior_title_label _ _ Hr). }
  assert (Happ : forall a b : list action,
             Forall Q a -> Forall Q b -> Forall Q (a ++ b))
    by (intros a b Ha Hb; now apply Forall_app).
  split; [|split].
  - apply (scrape_github_trace env (Forall Q)); auto;
      intros; repeat constructor; auto.
    apply Hsleep. unfold cooldown, microseconds_per_second. lia.
  - apply (crawl_trace env (Forall Q)); auto;
      intros; repeat constructor; auto.
    apply Hsleep. unfold cooldown, microseconds_per_second. lia.
  - apply (main_trace env (Forall Q)); auto;
      intros; repeat constructor; auto.
    apply Hsleep. unfold cooldown, microseconds_per_second. lia.
Qed.

Lemma Forall_appended (acts : list action) :
  Forall appends_qualified acts -> Forall qualified (appended acts).
Proof.
  induction 1 as [|a acts Ha _ IH]; [constructor|].
  destruct a; try exact IH. constructor; [exact Ha | exact IH].
Qed.

(** X6: whatever the API answers, every record that the main block or a
    crawl appends to the file has five recent pushes or more and carries
    one of the six role labels; the file after the run is the file before
    it with the rows of exactly these records appended. *)
Theorem appended_records_are_qualified (env : environment) (fuel : nat)
    (page : Z) (w : world) :
  Forall qualified (appended (performed (main env fuel) w)) /\
  Forall qualified (appended (performed (crawl env fuel page) w)) /\
  champions_csv (snd (crawl env fuel page w)) =
  file_after (champions_csv w) (appended (performed (crawl env fuel page) w)).
Proof.
  destruct (all_actions env appends_qualified) with (fuel := fuel) (page := page)
    (w := w) as (_ & Hcrawl & Hmain); try (intros; exact I).
  - intros p Hp. exact Hp.
  - split; [now apply Forall_appended|]. split; [now apply Forall_appended|].
    destruct (growing_crawl env fuel page w) as (acts & Hh & _ & _ & _ & Hf).
    now rewrite (performed_history _ _ _ Hh).
Qed.

(** ** The rate-limit check before every search *)

(** Scanning a history: every search request finds a rate-limit probe
    made since the request before it ([fresh] says that one is at hand). *)
Fixpoint gated (fresh : bool) (acts : list action) : bool :=
  match acts with
  | [] => true
  | Http GetRateLimit :: rest => gated true rest
  | Http (GetSearchUsers _) :: rest => fresh && gated false rest
  | Http _ :: rest => gated false rest
  | _ :: rest => gated fresh rest
  end.

Lemma gated_fresh (acts : list action) :
  gated false acts = true -> gated true acts = true.
Proof.
  induction acts as [|a acts IH]; [reflexivity|].
  destruct a as [[| | |]| | | |]; simpl; auto. discriminate.
Qed.

Lemma gated_app (fresh : bool) (a b : list action) :
  gated fresh a = true -> gated false b = true -> gated fresh (a ++ b) = true.
Proof.
  intros Ha Hb. revert fresh Ha. induction a as [|x a IH]; intros fresh Ha.
  - destruct fresh; [now apply gated_fresh | exact Hb].
  - destruct x as [[| | |]| | | |]; simpl in *; auto.
    apply andb_true_iff in Ha as [-> Ha]. simpl. auto.
Qed.

Lemma gated_probe_before (acts before rest : list action) (page : Z)
    (fresh : bool) :
  gated fresh acts = true ->
  acts = (before ++ Http (GetSearchUsers page) :: rest)%list ->
  (exists b1 b2 : list action,
      before = (b1 ++ Http GetRateLimit :: b2)%list /\ requests b2 = []) \/
  (fresh = true /\ requests before = []).
Proof.
  intros H ->. revert fresh H. induction before as [|a before IH]; intros fresh H.
  - simpl in H. apply andb_true_iff in H as [-> _]. now right.
  - assert (Hleft : forall f : bool,
               gated f (before ++ Http (GetSearchUsers page) :: rest) = true ->
               (exists b1 b2 : list action,
                   before = (b1 ++ Http GetRateLimit :: b2)%list /\
                   requests b2 = []) \/ (f = true /\ requests before = []))
      by (intros f Hf; exact (IH f Hf)).
    assert (Hcons : (exists b1 b2 : list action,
                        before = (b1 ++ Http GetRateLimit :: b2)%list /\
                        requests b2 = []) ->
                    exists b1 b2 : list action,
                      a :: before = (b1 ++ Http GetRateLimit :: b2)%list /\
                      requests b2 = []).
    { intros (b1 & b2 & -> & Hb). now exists (a :: b1), b2. }
    destruct a as [[| | |]| | | |]; simpl in H.
    + left. destruct (Hleft true H) as [Hl | [_ Hq]]; [auto|].
      now exists [], before.
    + apply andb_true_iff in H as [_ H].
      destruct (Hleft false H) as [Hl | [Hf _]]; [auto | discriminate].
    + destruct (Hleft false H) as [Hl | [Hf _]]; [auto | discriminate].
    + destruct (Hleft false H) as [Hl | [Hf _]]; [auto | discriminate].
    + destruct (Hleft fresh H) as [Hl | [Hf Hq]]; [auto | now right].
    + destruct (Hleft fresh H) as [Hl | [Hf Hq]]; [auto | now right].
    + destruct (Hleft fresh H) as [Hl | [Hf Hq]]; [auto | now right].
    + destruct (Hleft fresh H) as [Hl | [Hf Hq]]; [auto | now right].
Qed.

Lemma gated_everywhere (env : environment) (fuel : nat) (page : Z) (w : world) :
  gated false (performed (crawl env fuel page) w) = true /\
  gated false (performed (main env fuel) w) = true.
Proof.
  assert (Hgate : forall (page : Z) (w : world),
             gate_open env page w ->
             gated false (gate_actions env page w ++ [Http (GetSearchUsers page)])
             = true).
  { intros page0 w0 _. unfold gate_actions.
    now destruct (remaining (json (limits_seen env page0 w0)) =? 0). }
  assert (Hcand : forall (profile : search_item) (w : world),
             gated false (candidate_actions env profile w) = true).
  { intros profile w0. unfold candidate_actions. cbv zeta.
    destruct (negb (status_code _ =? 200)); [reflexivity|].
    destruct (bool_decide _); [reflexivity|].
    destruct (is_excluded_company _); [reflexivity|].
    destruct (is_excluded_industry _); [reflexivity|].
    destruct (negb (PyStr.truthy _)); [reflexivity|].
    now destruct (5 <=? _). }
  split.
  - apply (crawl_trace env (fun acts => gated false acts = true)); auto.
    intros a b. apply gated_app.
  - apply (main_trace env (fun acts => gated false acts = true)); auto.
    intros a b. apply gated_app.
Qed.

(** X7: in everything that the main block or a crawl does, each search
    request is gated by a rate-limit probe: between the request before it
    (or the start) and the search request there is a probe, and no other
    request comes between that probe and the search. *)
Theorem every_search_is_gated (env : environment) (fuel : nat) (start : Z)
    (w : world) :
  gated false (performed (main env fuel) w) = true /\
  gated false (performed (crawl env fuel start) w) = true /\
  (forall (before rest : list action) (page : Z),
      performed (main env fuel) w
      = (before ++ Http (GetSearchUsers page) :: rest)%list ->
      exists b1 b2 : list action,
        before = (b1 ++ Http GetRateLimit :: b2)%list /\ requests b2 = []) /\
  (forall (before rest : list action) (page : Z),
      performed (crawl env fuel start) w
      = (before ++ Http (GetSearchUsers page) :: rest)%list ->
      exists b1 b2 : list action,
        before = (b1 ++ Http GetRateLimit :: b2)%list /\ requests b2 = []).
Proof.
  destruct (gated_everywhere env fuel start w) as [Hcrawl Hmain].
  split; [exact Hmain|]. split; [exact Hcrawl|]. split.
  - intros before rest page Hsplit.
    destruct (gated_probe_before _ _ _ _ _ Hmain Hsplit) as [H | [H _]];
      [exact H | discriminate].
  - intros before rest page Hsplit.
    destruct (gated_probe_before _ _ _ _ _ Hcrawl Hsplit) as [H | [H _]];
      [exact H | discriminate].
Qed.

(** ** The order of the pages *)

(** The pages asked of the search endpoint in a history, oldest first. *)
Definition pages (acts : list action) : list Z :=
  omap (fun a => match a with Http (GetSearchUsers p) => Some p | _ => None end)
       acts.

(** From [page] on, every entry of [ps] is the entry before it or the
    successor of that entry. *)
Fixpoint climbs (page : Z) (ps : list Z) : bool :=
  match ps with
  | [] => true
  | p :: rest => ((p =? page) || (p =? page + 1)) && climbs p rest
  end.

(** [ps] starts at [start] and climbs from there. *)
Definition in_order (start : Z) (ps : list Z) : bool :=
  match ps with
  | [] => true
  | p :: rest => (p =? start) && climbs p rest
  end.

Lemma pages_app (a b : list action) : pages (a ++ b) = (pages a ++ pages b)%list.
Proof. unfold pages. apply omap_app. Qed.

Lemma pages_gate_actions (env : environment) (page : Z) (w : world) :
  pages (gate_actions env page w) = [].
Proof.
  unfold gate_actions.
  now destruct (remaining (json (limits_seen env page w)) =? 0).
Qed.

Lemma pages_candidate_actions (env : environment) (profile : search_item)
    (w : world) :
  pages (candidate_actions env profile w) = [].
Proof.
  unfold candidate_actions. cbv zeta.
  destruct (negb (status_code _ =? 200)); [reflexivity|].
  destruct (bool_decide _); [reflexivity|].
  destruct (is_excluded_company _); [reflexivity|].
  destruct (is_excluded_industry _); [reflexivity|].
  destruct (negb (PyStr.truthy _)); [reflexivity|].
  now destruct (5 <=? _).
Qed.

Lemma pages_candidates_actions (env : environment) (items : list search_item)
    (w : world) :
  pages (candidates_actions env items w) = [].
Proof.
  revert w. induction items as [|profile items IH]; intros w; [reflexivity|].
  cbn [candidates_actions]. now rewrite pages_app, pages_candidate_actions, IH.
Qed.

Lemma pages_gate_then (env : environment) (page : Z) (w : world)
    (rest : list action) :
  pages rest = [] ->
  pages (gate_actions env page w ++ Http (GetSearchUsers page) :: rest) = [page].
Proof.
  intros H. rewrite pages_app, pages_gate_actions.
  change (pages (Http (GetSearchUsers page) :: rest)) with (page :: pages rest).
  now rewrite H.
Qed.

(** One call of [scrape_github] asks for its own page only: once for each
    403, and once more when it returns. *)
Lemma scrapes_pages (env : environment) (page : Z) (w : world)
    (o : outcome bool) (w' : world) :
  scrapes env page w o w' ->
  exists (acts : list action) (k : nat),
    history w' = (history w ++ acts)%list /\
    pages acts = replicate k page /\
    (forall b : bool, o = Return b -> (0 < k)%nat).
Proof.
  induction 1 as [w|w Hs|w Hs Hr Hw|w o w' Hg H403 _ IH|w Hg H200 Hnil
                  |w Hg H200 Hitems|w Hg H200 H403].
  - exists [], 0%nat. rewrite app_nil_r. repeat split. discriminate.
  - exists [Print (LogScrapingPage page); Http GetRateLimit;
            Print LogRateLimitFailed], 0%nat.
    rewrite history_after. repeat split. discriminate.
  - exists [Print (LogScrapingPage page); Http GetRateLimit; Now;
            Print (LogRateLimitReached (whole_seconds (wait_seen env page w)))],
           0%nat.
    rewrite history_after. repeat split. discriminate.
  - destruct IH as (acts & k & Hh & Hp & Hk).
    rewrite history_after in Hh.
    exists ((gate_actions env page w
             ++ [Http (GetSearchUsers page); Print LogForbidden; Sleep cooldown])
            ++ acts)%list, (S k).
    split; [now rewrite Hh, <- app_assoc|]. split.
    + rewrite pages_app, Hp, (pages_gate_then env page w) by reflexivity.
      reflexivity.
    + intros _ _. lia.
  - eexists _, 1%nat. rewrite history_after. split; [reflexivity|]. split.
    + now apply pages_gate_then.
    + intros _ _. lia.
  - destruct (for_each_performed env items w1) as [_ Hh].
    unfold w1 at 2 in Hh. rewrite history_after in Hh.
    eexists _, 1%nat. split; [rewrite Hh, <- app_assoc; reflexivity|].
    split.
    + rewrite pages_app, pages_candidates_actions, app_nil_r.
      now apply pages_gate_then.
    + intros _ _. lia.
  - eexists _, 1%nat. rewrite history_after. split; [reflexivity|]. split.
    + now apply pages_gate_then.
    + intros _ _. lia.
Qed.

Lemma climbs_replicate (page : Z) (k : nat) (ps : list Z) :
  climbs page (replicate k page ++ ps) = climbs page ps.
Proof.
  induction k as [|k IH]; [reflexivity|].
  simpl. now rewrite Z.eqb_refl, IH.
Qed.

Lemma in_order_replicate (page : Z) (k : nat) :
  in_order page (replicate k page) = true.
Proof.
  destruct k as [|k]; [reflexivity|]. simpl. rewrite Z.eqb_refl. simpl.
  rewrite <- (app_nil_r (replicate k page)). now rewrite climbs_replicate.
Qed.

Lemma in_order_next (page : Z) (k : nat) (ps : list Z) :
  (0 < k)%nat -> in_order (page + 1) ps = true ->
  in_order page (replicate k page ++ ps) = true.
Proof.
  intros Hk Hps. destruct k as [|k]; [lia|]. simpl. rewrite Z.eqb_refl. simpl.
  rewrite climbs_replicate. destruct ps as [|p rest]; [reflexivity|].
  simpl in *. apply andb_true_iff in Hps as [Hp Hrest].
  rewrite Hp, Hrest. now rewrite orb_true_r.
Qed.

Lemma crawls_pages (env : environment) (page : Z) (w : world)
    (o : outcome unit) (w' : world) :
  crawls env page w o w' ->
  exists acts : list action,
    history w' = (history w ++ acts)%list /\
    in_order page (pages acts) = true.
Proof.
  induction 1 as [page w|page w w' Hs|page w w1 o w' Hs _ IH|page w w' e Hs
                  |page w w' Hs].
  - exists []. now rewrite app_nil_r.
  - destruct (scrapes_pages _ _ _ _ _ Hs) as (acts & k & Hh & Hp & _).
    exists acts. split; [exact Hh|]. rewrite Hp. apply in_order_replicate.
  - destruct (scrapes_pages _ _ _ _ _ Hs) as (a & k & Ha & Hp & Hk).
    destruct IH as (b & Hb & Hpb). exists (a ++ b)%list. split.
    + rewrite Hb, Ha. now rewrite <- app_assoc.
    + rewrite pages_app, Hp. apply in_order_next; [now apply (Hk true) | exact Hpb].
  - destruct (scrapes_pages _ _ _ _ _ Hs) as (acts & k & Hh & Hp & _).
    exists acts. split; [exact Hh|]. rewrite Hp. apply in_order_replicate.
  - destruct (scrapes_pages _ _ _ _ _ Hs) as (acts & k & Hh & Hp & _).
    exists acts. split; [exact Hh|]. rewrite Hp. apply in_order_replicate.
Qed.

(** The main block stops in [load_existing_users] with nothing done, or
    does what the crawl from page 1 does, after at most one report. *)
Lemma main_performed (env : environment) (fuel : nat) (w : world) :
  performed (main env fuel) w = [] \/
  exists (prints : list action) (w1 : world),
    (prints = [] \/ prints = [Print LogCsvNotFound]) /\
    champions_csv w1 = champions_csv w /\
    performed (main env fuel) w
    = (prints ++ performed (crawl env fuel 1) w1)%list /\
    main env fuel w = crawl env fuel 1 w1 /\
    history w1 = (history w ++ prints)%list.
Proof.
  destruct (load_existing_users_cases w)
    as [[e He] | (known & prints & Hload & Hprints)].
  - left. apply performed_history. unfold main.
    rewrite (bind_raise _ _ _ _ _ He). simpl. now rewrite app_nil_r.
  - right.
    set (w1 := {| existing_users := known;
                  champions_csv := champions_csv (after w prints);
                  history := history (after w prints) |}).
    exists prints, w1. split; [exact Hprints|]. split; [reflexivity|].
    rewrite (main_unfold env fuel _ _ _ Hload). fold w1.
    split; [|split; reflexivity].
    destruct (growing_crawl env fuel 1 w1) as (acts & Hh & _).
    rewrite (performed_history (crawl env fuel 1) w1 acts Hh).
    apply performed_history. unfold performed.
    rewrite (main_unfold env fuel _ _ _ Hload). fold w1. rewrite Hh.
    change (history w1) with (history (after w prints)).
    rewrite history_after. now rewrite <- app_assoc.
Qed.

(** X8: the search pages are asked for in order and none is skipped.  In
    a crawl from [start] the first search request is for [start] and every
    later one is for the page asked before (after a 403) or for the next
    one; the main block starts at page 1; and one call of [scrape_github]
    asks for its own page only. *)
Theorem pages_in_order (env : environment) (fuel : nat) (start : Z)
    (w : world) :
  in_order start (pages (performed (crawl env fuel start) w)) = true /\
  in_order 1 (pages (performed (main env fuel) w)) = true /\
  exists k : nat,
    pages (performed (scrape_github env fuel start) w) = replicate k start /\
    (forall b : bool,
        fst (scrape_github env fuel start w) = Return b -> (0 < k)%nat).
Proof.
  split; [|split].
  - destruct (crawls_pages _ _ _ _ _ (crawl_crawls env fuel start w))
      as (acts & Hh & Hp).
    now rewrite (performed_history _ _ _ Hh).
  - destruct (main_performed env fuel w)
      as [-> | (prints & w1 & Hprints & _ & -> & _)]; [reflexivity|].
    destruct (crawls_pages _ _ _ _ _ (crawl_crawls env fuel 1 w1))
      as (acts & Hh & Hp).
    rewrite (performed_history _ _ _ Hh), pages_app.
    now destruct Hprints as [-> | ->].
  - destruct (scrapes_pages _ _ _ _ _ (scrape_github_scrapes env fuel start w))
      as (acts & k & Hh & Hp & Hk).
    exists k. now rewrite (performed_history _ _ _ Hh).
Qed.

(** ** A page of candidates *)

Lemma lookups_app (a b : list action) :
  lookups (a ++ b) = (lookups a ++ lookups b)%list.
Proof. unfold lookups. apply omap_app. Qed.

Lemma requests_app (a b : list action) :
  requests (a ++ b) = (requests a ++ requests b)%list.
Proof. unfold requests. apply omap_app. Qed.

Lemma candidate_actions_requests (env : environment) (profile : search_item)
    (w : world) :
  lookups (candidate_actions env profile w) = [item_login profile] /\
  (1 <= length (requests (candidate_actions env profile w)) <= 2)%nat.
Proof.
  unfold candidate_actions. cbv zeta.
  destruct (negb (status_code _ =? 200)); [simpl; split; [reflexivity | lia]|].
  destruct (bool_decide _); [simpl; split; [reflexivity | lia]|].
  destruct (is_excluded_company _); [simpl; split; [reflexivity | lia]|].
  destruct (is_excluded_industry _); [simpl; split; [reflexivity | lia]|].
  destruct (negb (PyStr.truthy _)); [simpl; split; [reflexivity | lia]|].
  destruct (5 <=? _); simpl; (split; [reflexivity | lia]).
Qed.

Lemma candidates_actions_requests (env : environment)
    (items : list search_item) (w : world) :
  lookups (candidates_actions env items w) = map item_login items /\
  (length items <= length (requests (candidates_actions env items w))
   <= 2 * length items)%nat.
Proof.
  revert w. induction items as [|profile items IH]; intros w.
  - simpl. split; [reflexivity | lia].
  - cbn [candidates_actions].
    destruct (candidate_actions_requests env profile w) as [Hl Hr].
    destruct (IH (snd (process_profile env profile w))) as [IHl IHr].
    rewrite lookups_app, requests_app, length_app, Hl, IHl.
    split; [reflexivity|]. cbn [length]. lia.
Qed.

Lemma gate_actions_requests (env : environment) (page : Z) (w : world) :
  requests (gate_actions env page w) = [GetRateLimit] /\
  lookups (gate_actions env page w) = [].
Proof.
  unfold gate_actions.
  now destruct (remaining (json (limits_seen env page w)) =? 0).
Qed.

(** X9: when the rate-limit check passes and the search answers 200,
    [scrape_github] returns at once, whatever the lookups answer: [False]
    for a page without items and [True] otherwise.  It asks for the page
    once, looks every item up once, in the order of the answer, and sends
    between [2 + n] and [2 + 2n] requests for [n] items. *)
Theorem page_of_candidates (env : environment) (fuel : nat) (page : Z)
    (w : world) :
  gate_open env page w ->
  status_code (page_response env page w) = 200 ->
  let items := json (page_response env page w) in
  let acts := performed (scrape_github env (S fuel) page) w in
  fst (scrape_github env (S fuel) page w)
  = Return (negb (Nat.eqb (length items) 0)) /\
  pages acts = [page] /\
  lookups acts = map item_login items /\
  (2 + length items <= length (requests acts) <= 2 + 2 * length items)%nat.
Proof.
  intros Hgate H200 items acts. unfold acts, performed.
  rewrite scrape_github_gate_open by exact Hgate.
  destruct (decide (items = [])) as [Hnil|Hsome].
  - rewrite handle_page_empty by assumption. cbn [fst snd].
    rewrite after_after, history_after, drop_app_length.
    fold items. rewrite Hnil. split; [reflexivity|].
    rewrite !pages_app, !lookups_app, !requests_app, pages_gate_actions.
    destruct (gate_actions_requests env page w) as [-> ->].
    simpl. repeat split; lia.
  - rewrite handle_page_candidates by assumption.
    fold items. cbn [fst snd].
    destruct (for_each_performed env items
                (after (after w (gate_actions env page w
                                 ++ [Http (GetSearchUsers page)]))
                   [Print (LogPageReturned page (Z.of_nat (length items)))]))
      as [_ ->].
    rewrite after_after, history_after, <- app_assoc, drop_app_length.
    destruct (candidates_actions_requests env items
                (after w ((gate_actions env page w ++ [Http (GetSearchUsers page)])
                          ++ [Print (LogPageReturned page
                                       (Z.of_nat (length items)))])))
      as [Hl Hr].
    split; [destruct items; [congruence | reflexivity]|].
    rewrite !pages_app, pages_candidates_actions, pages_gate_actions.
    rewrite !lookups_app, !requests_app, Hl.
    destruct (gate_actions_requests env page w) as [-> ->].
    split; [reflexivity|]. split; [reflexivity|].
    change (requests [Http (GetSearchUsers page)]) with [GetSearchUsers page].
    change (requests [Print (LogPageReturned page (Z.of_nat (length items)))])
      with (@nil request).
    rewrite !length_app. cbn [length]. lia.
Qed.

Lemma page_of_candidates_witness :
  fst (scrape_github (env_with 5) 1 1 fresh_world) = Return true /\
  pages (performed (scrape_github (env_with 5) 1 1) fresh_world) = [1] /\
  lookups (performed (scrape_github (env_with 5) 1 1) fresh_world) = ["ada"] /\
  (3 <= length (requests (performed (scrape_github (env_with 5) 1 1)
                            fresh_world)) <= 4)%nat.
Proof.
  apply (page_of_candidates (env_with 5) 0 1 fresh_world).
  - split; [reflexivity | vm_compute; lia].
  - reflexivity.
Defined.

(** ** How a crawl ends *)

(** The world [w'] is reached from [w] by a page that came back empty:
    some page [last], not before [start], was asked for from a world [w0]
    after [w] with the rate-limit check passed, the answer was 200 without
    items, and the two reports of it are the last things done. *)
Definition ends_on_empty_page (env : environment) (start : Z) (w w' : world)
  : Prop :=
  exists (last : Z) (w0 : world) (before : list action),
    start <= last /\
    history w0 = (history w ++ before)%list /\
    gate_open env last w0 /\
    status_code (page_response env last w0) = 200 /\
    json (page_response env last w0) = [] /\
    w' = after w0 (gate_actions env last w0
                   ++ [Http (GetSearchUsers last); Print (LogPageReturned last 0);
                       Print (LogNoMoreUsers last)]).

Lemma scrapes_false (env : environment) (page : Z) (w : world)
    (o : outcome bool) (w' : world) :
  scrapes env page w o w' -> o = Return false ->
  ends_on_empty_page env page w w'.
Proof.
  induction 1 as [w|w Hs|w Hs Hr Hw|w o w' Hg H403 _ IH|w Hg H200 Hnil
                  |w Hg H200 Hitems|w Hg H200 H403]; intros Ho;
    try discriminate.
  - destruct (IH Ho) as (last & w0 & before & Hle & Hh & Hrest).
    rewrite history_after in Hh.
    exists last, w0, ((gate_actions env page w
                       ++ [Http (GetSearchUsers page); Print LogForbidden;
                           Sleep cooldown]) ++ before)%list.
    split; [exact Hle|]. split; [now rewrite Hh, <- app_assoc | exact Hrest].
  - exists page, w, []. rewrite app_nil_r.
    split; [lia|]. split; [reflexivity|]. split; [exact Hg|]. now split.
Qed.

Lemma crawls_normal_end (env : environment) (page : Z) (w : world)
    (o : outcome unit) (w' : world) :
  crawls env page w o w' -> o = Return tt -> ends_on_empty_page env page w w'.
Proof.
  induction 1 as [page w|page w w' Hs|page w w1 o w' Hs _ IH|page w w' e Hs
                  |page w w' Hs]; intros Ho; try discriminate.
  - exact (scrapes_false _ _ _ _ _ Hs eq_refl).
  - destruct (IH Ho) as (last & w0 & before & Hle & Hh & Hrest).
    destruct (scrapes_pages _ _ _ _ _ Hs) as (acts & _ & Ha & _).
    exists last, w0, (acts ++ before)%list.
    split; [lia|]. split; [now rewrite Hh, Ha, <- app_assoc | exact Hrest].
Qed.

(** X10: the only normal end of the main loop is an empty page.  When a
    crawl, or the main block, returns, the last thing it did was to ask for
    some page, with the rate-limit check passed, get the answer 200 without
    items and report it; error pages and pages with candidates never end
    the loop. *)
Theorem normal_end_is_an_empty_page (env : environment) (fuel : nat)
    (start : Z) (w : world) :
  (fst (crawl env fuel start w) = Return tt ->
   ends_on_empty_page env start w (snd (crawl env fuel start w))) /\
  (fst (main env fuel w) = Return tt ->
   ends_on_empty_page env 1 w (snd (main env fuel w))).
Proof.
  split.
  - intros Hret.
    exact (crawls_normal_end _ _ _ _ _ (crawl_crawls env fuel start w) Hret).
  - intros Hret.
    destruct (load_existing_users_cases w)
      as [[e He] | (known & prints & Hload & Hprints)].
    + unfold main in Hret. rewrite (bind_raise _ _ _ _ _ He) in Hret.
      discriminate.
    + rewrite (main_unfold env fuel _ _ _ Hload) in Hret |- *.
      set (w1 := {| existing_users := known;
                    champions_csv := champions_csv (after w prints);
                    history := history (after w prints) |}) in *.
      destruct (crawls_normal_end _ _ _ _ _ (crawl_crawls env fuel 1 w1) Hret)
        as (last & w0 & before & Hle & Hh & Hrest).
      exists last, w0, (prints ++ before)%list. split; [exact Hle|].
      split; [|exact Hrest]. rewrite Hh.
      change (history w1) with (history (after w prints)).
      now rewrite history_after, <- app_assoc.
Qed.

Lemma normal_end_is_an_empty_page_witness :
  fst (crawl env_error_page 3 1 fresh_world) = Return tt /\
  ends_on_empty_page env_error_page 1 fresh_world
    (snd (crawl env_error_page 3 1 fresh_world)).
Proof.
  split; [reflexivity|].
  apply (normal_end_is_an_empty_page env_error_page 3 1 fresh_world).
  reflexivity.
Defined.

(** ** The file over a whole run *)

Lemma file_after_extends (file : option string) (profiles : list profile_info) :
  (exists suffix : string,
      default EmptyString (file_after file profiles)
      = default EmptyString file +:+ suffix) /\
  (file_after file profiles = None <-> file = None /\ profiles = []) /\
  (profiles = [] -> file_after file profiles = file).
Proof.
  revert file. induction profiles as [|p profiles IH]; intros file.
  - split; [exists EmptyString; simpl; now rewrite append_nil_r|].
    split; [|reflexivity]. simpl. split; [now intros -> | now intros [-> _]].
  - change (file_after file (p :: profiles))
      with (file_after (Some (default EmptyString file +:+ written file p))
              profiles).
    destruct (IH (Some (default EmptyString file +:+ written file p)))
      as ((suffix & Hs) & Hnone & _).
    split; [|split].
    + exists (written file p +:+ suffix). rewrite Hs. simpl default.
      apply append_assoc.
    + split; [|now intros [_ H]].
      intros H. apply Hnone in H as [H _]. discriminate.
    + discriminate.
Qed.

(** X12: a run of the main block only ever extends the file.  Whatever
    the file holds at the start, well-formed or not, and however the run
    ends, the content at the start is a prefix of the content at the end;
    the file is left as it was when no record is appended, and a missing
    file is created only by the first record appended. *)
Theorem file_only_grows (env : environment) (fuel : nat) (w : world) :
  let w' := snd (main env fuel w) in
  let new := appended (performed (main env fuel) w) in
  (exists suffix : string,
      default EmptyString (champions_csv w')
      = default EmptyString (champions_csv w) +:+ suffix) /\
  champions_csv w' = file_after (champions_csv w) new /\
  (new = [] -> champions_csv w' = champions_csv w) /\
  (champions_csv w' = None <-> champions_csv w = None /\ new = []).
Proof.
  intros w' new.
  assert (Hfile : champions_csv w' = file_after (champions_csv w) new).
  { unfold w', new.
    destruct (load_existing_users_cases w)
      as [[e He] | (known & prints & Hload & Hprints)].
    - assert (Hmain : main env fuel w = (Raise e, w))
        by (unfold main; now rewrite (bind_raise _ _ _ _ _ He)).
      unfold performed. rewrite Hmain. cbn [snd].
      now rewrite drop_all.
    - set (w1 := {| existing_users := known;
                    champions_csv := champions_csv (after w prints);
                    history := history (after w prints) |}).
      destruct (growing_crawl env fuel 1 w1) as (acts & Hh & _ & _ & _ & Hf).
      change (history w1) with (history (after w prints)) in Hh.
      rewrite history_after, <- app_assoc in Hh.
      rewrite (performed_history (main env fuel) w (prints ++ acts));
        [|now rewrite (main_unfold env fuel _ _ _ Hload)].
      rewrite (main_unfold env fuel _ _ _ Hload). fold w1.
      rewrite Hf, appended_app.
      now destruct Hprints as [-> | ->]. }
  destruct (file_after_extends (champions_csv w) new) as (Hs & Hnone & Hsame).
  rewrite Hfile. split; [exact Hs|]. split; [reflexivity|].
  split; [exact Hsame | exact Hnone].
Qed.

(** ** A ledger file without a name column *)

Lemma last_value_found (key : string) (names row : list string)
    (found : option string) :
  key ∈ names \/ found <> None ->
  CsvRead.last_value key names row found <> None.
Proof.
  revert row found. induction names as [|n names IH]; intros row found H.
  - destruct H as [H | H]; [now apply elem_of_nil in H|].
    destruct row, found; simpl; congruence.
  - destruct row as [|v row].
    + cbn [CsvRead.last_value].
      destruct (existsb (String.eqb key) (n :: names)) eqn:E; [discriminate|].
      destruct H as [H | H]; [|destruct found; simpl; congruence].
      exfalso. apply not_true_iff_false in E. apply E.
      apply existsb_exists. exists key. split; [|apply String.eqb_refl].
      now apply list_elem_of_In.
    + cbn [CsvRead.last_value]. apply IH.
      destruct (String.eqb key n) eqn:E; [now right|].
      destruct H as [H | H]; [|now right]. left.
      apply elem_of_cons in H as [-> | H]; [|exact H].
      now rewrite String.eqb_refl in E.
Qed.

Lemma last_value_missing (key : string) (names row : list string) :
  key ∉ names -> CsvRead.last_value key names row None = None.
Proof.
  revert row. induction names as [|n names IH]; intros row H.
  - now destruct row.
  - apply not_elem_of_cons in H as [Hn H]. destruct row as [|v row].
    + cbn [CsvRead.last_value].
      destruct (existsb (String.eqb key) (n :: names)) eqn:E; [|reflexivity].
      apply existsb_exists in E as (x & Hin & Hx).
      apply String.eqb_eq in Hx. subst x. apply list_elem_of_In in Hin.
      apply elem_of_cons in Hin as [-> | Hin]; [now destruct Hn | now destruct H].
    + cbn [CsvRead.last_value].
      destruct (String.eqb key n) eqn:E; [|now apply IH].
      apply String.eqb_eq in E. now destruct Hn.
Qed.

(** The file of a login column and a role column, with one row. *)
Definition file_without_names : string :=
  "login,role" +:+ Csv.lineterminator +:+ "ada,Director" +:+ Csv.lineterminator.

(** X13: a file that the reader accepts and whose first record lacks the
    column [name] stops the process when, and only when, a record that is
    not empty follows: [load_existing_users] then raises [KeyError] and the
    main block ends with it before any request is sent and with the file
    untouched; in every other case [load_existing_users] returns a set and
    does nothing else. *)
Theorem load_without_name_column (w : world) (content : string)
    (names : list string) (rows : list (list string)) :
  champions_csv w = Some content ->
  CsvRead.reader content = Some (names :: rows) ->
  ("name" ∉ names -> Exists (fun row => row <> []) rows ->
   load_existing_users w = (Raise KeyError, w) /\
   forall (env : environment) (fuel : nat),
     main env fuel w = (Raise KeyError, w)) /\
  ("name" ∈ names \/ Forall (fun row => row = []) rows ->
   exists known : gset string, load_existing_users w = (Return known, w)).
Proof.
  intros Hfile Hread.
  assert (Hload : load_existing_users w =
                  match CsvRead.dict_column "name" (names :: rows) with
                  | Some values => (Return (strings_of values), w)
                  | None => (Raise KeyError, w)
                  end).
  { unfold load_existing_users, bind. cbn [fst snd]. rewrite Hfile, Hread.
    now destruct (CsvRead.dict_column "name" (names :: rows)). }
  split.
  - intros Hmissing Hrow.
    assert (Hnone : CsvRead.dict_column "name" (names :: rows) = None).
    { cbn [CsvRead.dict_column]. apply mapM_None.
      apply Exists_exists in Hrow as (row & Hin & Hne).
      apply Exists_exists. exists row. split.
      - apply list_elem_of_filter. now split.
      - now apply last_value_missing. }
    rewrite Hnone in Hload. split; [exact Hload|].
    intros env fuel. unfold main. now rewrite (bind_raise _ _ _ _ _ Hload).
  - intros Hok.
    assert (Hsome : is_Some (CsvRead.dict_column "name" (names :: rows))).
    { cbn [CsvRead.dict_column]. apply mapM_is_Some.
      apply Forall_forall. intros row Hin.
      apply list_elem_of_filter in Hin as [Hne Hin]. unfold compose.
      destruct Hok as [Hname | Hempty].
      - apply not_eq_None_Some. apply last_value_found. now left.
      - rewrite Forall_forall in Hempty. now destruct (Hne (Hempty row Hin)). }
    destruct Hsome as [values Hvalues]. rewrite Hvalues in Hload.
    now exists (strings_of values).
Qed.

Lemma load_without_name_column_witness :
  load_existing_users
    {| existing_users := ∅; champions_csv := Some file_without_names;
       history := [] |}
  = (Raise KeyError,
     {| existing_users := ∅; champions_csv := Some file_without_names;
        history := [] |}).
Proof.
  apply (load_without_name_column
           {| existing_users := ∅; champions_csv := Some file_without_names;
              history := [] |}
           file_without_names ["login"; "role"] [["ada"; "Director"]]).
  - reflexivity.
  - vm_compute. reflexivity.
  - intros H. repeat (apply elem_of_cons in H as [H | H]; [discriminate|]).
    now apply elem_of_nil in H.
  - constructor. discriminate.
Defined.

(** ** After a 403 *)






















